(** * find_unhandled_reviews.py: a shallow embedding and its properties

    The script scans [BASE/<dir>/*.txt] for every [<dir>] of [DIRS], finds in
    each file the last "ISSUE REVIEW" heading, counts the pending issue lines
    below it, sorts the findings newest first and prints a report.

    Python values are carried as follows.
    - [str] is a list of Unicode code points ([N]); the [str] methods the
      script calls ([strip], [upper], [startswith], [splitlines], the format
      mini-language) are written out in [PyStr].
    - [re.search] runs a small backtracking matcher ([Re]) on the pattern of
      the script.
    - a file is read through the UTF-8 decoder of [Utf8] with the error
      handler of the [open] call, then universal-newline translation.
    - [os.path.getmtime] yields a finite float; finite floats are rationals
      and Python compares them by value, so a modification time is a [Q].
    - the local-time conversion and the upper-casing of non-ASCII code
      points are tables of the host, taken as Section variables.
    - the script catches no exception. The calls that can raise
      ([os.path.getmtime], [open] and [read], [datetime.fromtimestamp],
      [print]) have a failing case, a run is its output together with the
      way it ended, and an exception ends it where it is raised. *)

From Stdlib Require Import String Ascii DecimalString.
From Stdlib Require Import List NArith ZArith QArith Bool Arith Lia.
From Stdlib Require Import Sorting.Sorted Sorting.Permutation.
Import ListNotations.

Local Open Scope N_scope.
Local Open Scope list_scope.

(** ** Python strings *)

Module PyStr.

Definition char := N.
Definition str := list char.

(** A source literal, as the list of its code points (ASCII literals only). *)
Definition lit (s : String.string) : str :=
  map N_of_ascii (String.list_ascii_of_string s).
Arguments lit s%_string.

Definition eqb_str (a b : str) : bool :=
  if list_eq_dec N.eq_dec a b then true else false.

(** [str.isspace] on one code point: the set [Py_UNICODE_ISSPACE] accepts.
    [str.strip()] and the class [\s] of [re] use the same set. *)
Definition isspace (c : char) : bool :=
  ((0x09 <=? c) && (c <=? 0x0D)) || ((0x1C <=? c) && (c <=? 0x20))
  || (c =? 0x85) || (c =? 0xA0) || (c =? 0x1680)
  || ((0x2000 <=? c) && (c <=? 0x200A))
  || (c =? 0x2028) || (c =? 0x2029) || (c =? 0x202F) || (c =? 0x205F)
  || (c =? 0x3000).

(** The line boundaries of [str.splitlines]; CR LF is handled there. *)
Definition is_linebreak (c : char) : bool :=
  ((0x0A <=? c) && (c <=? 0x0D)) || ((0x1C <=? c) && (c <=? 0x1E))
  || (c =? 0x85) || (c =? 0x2028) || (c =? 0x2029).

Fixpoint lstrip_by (p : char -> bool) (s : str) : str :=
  match s with
  | c :: s' => if p c then lstrip_by p s' else s
  | [] => []
  end.

Definition rstrip_by (p : char -> bool) (s : str) : str :=
  rev (lstrip_by p (rev s)).

Definition strip_by (p : char -> bool) (s : str) : str :=
  rstrip_by p (lstrip_by p s).

(** [s.strip()] *)
Definition strip (s : str) : str := strip_by isspace s.

(** [s.strip(chars)] *)
Definition strip_chars (chars : str) (s : str) : str :=
  strip_by (fun c => existsb (N.eqb c) chars) s.

(** [s.startswith(prefix)] *)
Fixpoint startswith (s prefix : str) {struct prefix} : bool :=
  match prefix, s with
  | [], _ => true
  | p :: prefix', c :: s' => (c =? p) && startswith s' prefix'
  | _ :: _, [] => false
  end.

(** [s.splitlines()]: [cur] holds the current line, last character first. *)
Fixpoint splitlines_from (cur : str) (s : str) : list str :=
  match s with
  | [] => match cur with [] => [] | _ :: _ => [rev cur] end
  | c :: s' =>
      if c =? 0x0D then
        match s' with
        | 0x0A :: s'' => rev cur :: splitlines_from [] s''
        | _ => rev cur :: splitlines_from [] s'
        end
      else if is_linebreak c then rev cur :: splitlines_from [] s'
      else splitlines_from (c :: cur) s'
  end.

Definition splitlines (s : str) : list str := splitlines_from [] s.

(** [str(n)] for a non-negative int, as an f-string field renders it. *)
Definition str_of_nat (n : nat) : str :=
  lit (DecimalString.NilZero.string_of_uint (Nat.to_uint n)).

(** [format(s, "<w")]: left-aligned in a field of at least [w] columns. *)
Definition ljust (w : nat) (s : str) : str :=
  s ++ repeat 0x20 (w - length s).

(** A number as [strftime] prints a field: at least [w] digits, zero filled. *)
Definition zfill (w : nat) (n : N) : str :=
  let d := lit (DecimalString.NilZero.string_of_uint (N.to_uint n)) in
  repeat 0x30 (w - length d) ++ d.

(** [str.upper] on an ASCII code point. *)
Definition upper_ascii (c : char) : char :=
  if (0x61 <=? c) && (c <=? 0x7A) then c - 0x20 else c.

Section Upper.
(** The upper-case mapping of a code point above U+007F, from the Unicode
    tables of the interpreter; it may yield several code points. *)
Variable upper_ext : char -> str.

Definition upper_char (c : char) : str :=
  if c <? 0x80 then [upper_ascii c] else upper_ext c.

(** [s.upper()] *)
Definition upper (s : str) : str := flat_map upper_char s.
End Upper.

End PyStr.

(** ** Regular expressions *)

Module Re.
Import PyStr.

(** The pattern items the script uses: a literal character, a starred
    character class and the anchor [$]. *)
Inductive item :=
| Chr (c : char)
| Star (cls : char -> bool)
| Dollar.

Definition pattern := list item.

(** The literal characters of [s], in sequence. *)
Definition chars (s : String.string) : pattern := map Chr (lit s).
Arguments chars s%_string.

(** [$] without [re.MULTILINE]: the end of the string, or just before a
    newline that ends the string. *)
Definition at_end (s : str) : bool :=
  match s with
  | [] => true
  | [0x0A] => true
  | _ => false
  end.

(** A starred class followed by the rest of the pattern [k]: the longest run
    first, then shorter ones. *)
Fixpoint star_then (cls : char -> bool) (k : str -> bool) (s : str) : bool :=
  match s with
  | c :: s' => (cls c && star_then cls k s') || k s
  | [] => k []
  end.

(** Does the pattern match a prefix of [s]? *)
Fixpoint match_here (pat : pattern) (s : str) : bool :=
  match pat with
  | [] => true
  | Chr c :: pat' =>
      match s with
      | x :: s' => (x =? c) && match_here pat' s'
      | [] => false
      end
  | Star cls :: pat' => star_then cls (match_here pat') s
  | Dollar :: pat' => at_end s && match_here pat' s
  end.

(** [re.search(pat, s)] taken as a truth value: a match at some position. *)
Fixpoint search (pat : pattern) (s : str) : bool :=
  match_here pat s ||
  match s with
  | [] => false
  | _ :: s' => search pat s'
  end.

End Re.

(** ** Reading a file *)

Module Utf8.
Import PyStr.

(** The [errors] argument of [open]. *)
Inductive handler := Strict | Replace.

Inductive decoded :=
| Text (s : str)
| UnicodeDecodeError.

(** A byte by its value, 0 to 255. *)
Definition byte := N.

Definition is_cont (b : byte) : bool := (0x80 <=? b) && (b <=? 0xBF).

(** One step of the decoder at the head of the input: a code point and the
    number of bytes it took, or the number of bytes the error covers (an
    invalid start byte, the bytes before an invalid continuation byte, or a
    sequence the end of the data cuts short). *)
Inductive step :=
| Point (c : char) (len : nat)
| Invalid (len : nat).

Definition decode_one (b : byte) (rest : list byte) : step :=
  if b <? 0x80 then Point b 1
  else if b <? 0xC2 then Invalid 1
  else if b <? 0xE0 then
    match rest with
    | [] => Invalid 1
    | b2 :: _ =>
        if is_cont b2 then Point ((b - 0xC0) * 64 + (b2 - 0x80)) 2
        else Invalid 1
    end
  else if b <? 0xF0 then
    match rest with
    | [] => Invalid 1
    | b2 :: r2 =>
        if negb (is_cont b2)
           || (if b2 <? 0xA0 then b =? 0xE0 else b =? 0xED)
        then Invalid 1
        else match r2 with
             | [] => Invalid 2
             | b3 :: _ =>
                 if is_cont b3
                 then Point ((b - 0xE0) * 4096 + (b2 - 0x80) * 64 + (b3 - 0x80)) 3
                 else Invalid 2
             end
    end
  else if b <? 0xF5 then
    match rest with
    | [] => Invalid 1
    | b2 :: r2 =>
        if negb (is_cont b2)
           || (if b2 <? 0x90 then b =? 0xF0 else b =? 0xF4)
        then Invalid 1
        else match r2 with
             | [] => Invalid 2
             | b3 :: r3 =>
                 if negb (is_cont b3) then Invalid 2
                 else match r3 with
                      | [] => Invalid 3
                      | b4 :: _ =>
                          if is_cont b4
                          then Point ((b - 0xF0) * 262144 + (b2 - 0x80) * 4096
                                      + (b3 - 0x80) * 64 + (b4 - 0x80)) 4
                          else Invalid 3
                      end
             end
    end
  else Invalid 1.

Definition emit (c : char) (d : decoded) : decoded :=
  match d with
  | Text s => Text (c :: s)
  | UnicodeDecodeError => UnicodeDecodeError
  end.

(** U+FFFD, the replacement character. *)
Definition REPLACEMENT : char := 0xFFFD.

(** The decoding loop. [skip] counts the bytes still to pass over: those the
    last step took or, under [Replace], those its error covered. *)
Fixpoint decode_from (h : handler) (skip : nat) (bs : list byte) : decoded :=
  match bs with
  | [] => Text []
  | b :: rest =>
      match skip with
      | S k => decode_from h k rest
      | O =>
          match decode_one b rest with
          | Point c len => emit c (decode_from h (len - 1) rest)
          | Invalid len =>
              match h with
              | Strict => UnicodeDecodeError
              | Replace => emit REPLACEMENT (decode_from h (len - 1) rest)
              end
          end
      end
  end.

(** [bytes.decode("utf-8", errors)] *)
Definition decode (h : handler) (bs : list Byte.byte) : decoded :=
  decode_from h 0 (map Byte.to_N bs).

(** Text mode with [newline=None]: CR LF and a lone CR are read as LF. *)
Fixpoint universal_newlines (s : str) : str :=
  match s with
  | [] => []
  | c :: s' =>
      if c =? 0x0D then
        0x0A :: match s' with
                | [] => []
                | c' :: s'' =>
                    if c' =? 0x0A then universal_newlines s''
                    else universal_newlines s'
                end
      else c :: universal_newlines s'
  end.

(** [open(path, "r", encoding="utf-8", errors=h).read()] on the bytes of the
    file. *)
Definition read (h : handler) (bs : list Byte.byte) : decoded :=
  match decode h bs with
  | Text s => Text (universal_newlines s)
  | UnicodeDecodeError => UnicodeDecodeError
  end.

End Utf8.

(** ** Paths and time *)

Module OsPath.
Import PyStr.

Definition sep : char := 0x2F.

Definition endswith_sep (s : str) : bool :=
  match rev s with
  | c :: _ => c =? sep
  | [] => false
  end.

(** [os.path.join(a, *p)], one component at a time. *)
Definition join2 (path b : str) : str :=
  if startswith b [sep] then b
  else match path with
       | [] => b
       | _ :: _ => if endswith_sep path then path ++ b else path ++ sep :: b
       end.

Definition join (a : str) (p : list str) : str := fold_left join2 p a.

(** [s.split("/")] *)
Fixpoint split_from (cur : str) (s : str) : list str :=
  match s with
  | [] => [rev cur]
  | c :: s' =>
      if c =? sep then rev cur :: split_from [] s'
      else split_from (c :: cur) s'
  end.

Definition split (s : str) : list str := split_from [] s.

(** The components [normpath] keeps, for an absolute path: empty and ["."]
    components are dropped and [".."] removes the component before it. *)
Definition norm_step (new_comps : list str) (comp : str) : list str :=
  if eqb_str comp [] || eqb_str comp (lit ".") then new_comps
  else if negb (eqb_str comp (lit "..")) then new_comps ++ [comp]
  else removelast new_comps.

Definition comps (path : str) : list str := fold_left norm_step (split path) [].

Fixpoint commonprefix_len (a b : list str) : nat :=
  match a, b with
  | x :: a', y :: b' => if eqb_str x y then S (commonprefix_len a' b') else 0%nat
  | _, _ => 0%nat
  end.

Fixpoint join_sep (l : list str) : str :=
  match l with
  | [] => []
  | [x] => x
  | x :: l' => x ++ sep :: join_sep l'
  end.

(** [os.path.relpath(path, start)] for absolute [path] and [start]. *)
Definition relpath (path start : str) : str :=
  let start_list := comps start in
  let path_list := comps path in
  let i := commonprefix_len start_list path_list in
  let rel_list := repeat (lit "..") (length start_list - i) ++ skipn i path_list in
  match rel_list with
  | [] => lit "."
  | _ :: _ => join_sep rel_list
  end.

End OsPath.

Module Datetime.
Import PyStr.

(** A [datetime.datetime], to the second. *)
Record datetime := {
  year : N; month : N; day : N;
  hour : N; minute : N; second : N
}.

(** The fields are in the ranges the class guarantees. *)
Definition valid (dt : datetime) : Prop :=
  1 <= year dt <= 9999 /\ 1 <= month dt <= 12 /\ 1 <= day dt <= 31
  /\ hour dt <= 23 /\ minute dt <= 59 /\ second dt <= 59.

(** One [strftime] directive. The C library prints the year of [%Y] as it
    is, without leading zeros: a year below 1000 has fewer than four
    digits. *)
Definition directive (dt : datetime) (d : char) : str :=
  if d =? 0x59 then zfill 1 (year dt)         (* %Y *)
  else if d =? 0x6D then zfill 2 (month dt)   (* %m *)
  else if d =? 0x64 then zfill 2 (day dt)     (* %d *)
  else if d =? 0x48 then zfill 2 (hour dt)    (* %H *)
  else if d =? 0x4D then zfill 2 (minute dt)  (* %M *)
  else if d =? 0x53 then zfill 2 (second dt)  (* %S *)
  else [0x25; d].

(** [dt.strftime(fmt)] for the directives above. *)
Fixpoint strftime (dt : datetime) (fmt : str) : str :=
  match fmt with
  | [] => []
  | c :: fmt' =>
      if c =? 0x25 then
        match fmt' with
        | d :: fmt'' => directive dt d ++ strftime dt fmt''
        | [] => [c]
        end
      else c :: strftime dt fmt'
  end.

End Datetime.

(** ** The scanner *)

Module Scanner.
Import PyStr.

Definition BASE : str := lit "/home/artur/keep.ai".
Definition DIRS : list str := [lit "reviews"; lit "ux-tests"].

(** The script catches no exception: a call either returns a value or
    raises, and what is raised ends the run. *)
Inductive outcome (A : Type) :=
| Returns (a : A)
| Raises.
Arguments Returns {A} a.
Arguments Raises {A}.

(** What the script asks of the file system: the paths a glob pattern
    matches, in the order the directory listing gives them, and for a path
    its modification time and its bytes. [os.path.getmtime] raises OSError
    for a path it cannot stat, [open] and [read] for one they cannot open or
    read (a directory, a file without permission, a file that is gone). *)
Record filesystem := {
  glob_glob : str -> list str;
  getmtime : str -> outcome Q;
  read_bytes : str -> outcome (list Byte.byte)
}.

(** An entry of [results]: [(mtime, filepath, reason)]. *)
Definition finding : Type := Q * str * str.

Definition bind {A B : Type} (m : outcome A) (k : A -> outcome B) : outcome B :=
  match m with
  | Returns a => k a
  | Raises => Raises
  end.

Notation "x <- m ;; k" := (bind m (fun x => k))
  (at level 61, m at next level, right associativity).

(** A [for] loop whose body may raise. *)
Fixpoint for_each {A S : Type} (body : S -> A -> outcome S) (l : list A) (s : S)
  : outcome S :=
  match l with
  | [] => Returns s
  | a :: l' => s' <- body s a ;; for_each body l' s'
  end.

(** [re.search(r'-\s*pending\s*$', ...)] *)
Definition pending_re : Re.pattern :=
  Re.Chr 0x2D :: Re.Star isspace :: Re.chars "pending" ++ [Re.Star isspace; Re.Dollar].

(** The test of the pending loop on one line. *)
Definition is_pending (line : str) : bool :=
  let line_stripped := strip line in
  startswith line_stripped (lit "- Issue") && Re.search pending_re line_stripped.

(** The pending loop over [review_lines]. *)
Definition count_pending (review_lines : list str) : nat :=
  fold_left (fun pending_count line =>
               if is_pending line then S pending_count else pending_count)
            review_lines 0%nat.

Section Host.
(** Upper-casing above U+007F and the local-time rules come from the host.
    [datetime.fromtimestamp] raises for a time outside the years it can
    hold. Standard output takes a text or refuses it (a character its
    encoding lacks, a closed pipe), in which case [print] raises. *)
Variable upper_ext : char -> str.
Variable fromtimestamp : Q -> outcome Datetime.datetime.
Variable stdout_accepts : str -> bool.

(** The test of the heading loop on one line. *)
Definition is_heading (line : str) : bool :=
  let stripped := strip (strip_chars (lit "=") (strip line)) in
  eqb_str (upper upper_ext stripped) (lit "ISSUE REVIEW").

(** The heading loop: [i] is the index of the head of [lines]. *)
Fixpoint heading_loop (i : nat) (lines : list str) (issue_review_idx : option nat)
  : option nat :=
  match lines with
  | [] => issue_review_idx
  | line :: lines' =>
      heading_loop (S i) lines'
        (if is_heading line then Some i else issue_review_idx)
  end.

Definition find_issue_review_idx (lines : list str) : option nat :=
  heading_loop 0 lines None.

(** The body of the file loop once [content] is read. *)
Definition file_body (results : list finding) (mtime : Q) (filepath content : str)
  : list finding :=
  let lines := splitlines content in
  match find_issue_review_idx lines with
  | None => results ++ [(mtime, filepath, lit "MISSING ISSUE REVIEW section")]
  | Some issue_review_idx =>
      let review_lines := skipn issue_review_idx lines in
      let pending_count := count_pending review_lines in
      if (0 <? pending_count)%nat
      then results ++ [(mtime, filepath,
                        lit "has " ++ str_of_nat pending_count ++ lit " PENDING issue(s)")]
      else results
  end.

Definition process_file (fs : filesystem) (results : list finding) (filepath : str)
  : outcome (list finding) :=
  mtime <- getmtime fs filepath ;;
  bytes <- read_bytes fs filepath ;;
  match Utf8.read Utf8.Replace bytes with
  | Utf8.Text content => Returns (file_body results mtime filepath content)
  | Utf8.UnicodeDecodeError => Raises
  end.

Definition process_dir (fs : filesystem) (results : list finding) (d : str)
  : outcome (list finding) :=
  let pattern := OsPath.join BASE [d; lit "*.txt"] in
  for_each (process_file fs) (glob_glob fs pattern) results.

(** The two nested loops, from [results = []]. *)
Definition scan (fs : filesystem) : outcome (list finding) :=
  for_each (process_dir fs) DIRS [].

(** The key of the sort, [lambda x: x[0]]. *)
Definition key (x : finding) : Q := fst (fst x).

(** [results.sort(key=..., reverse=True)]: a stable sort, largest key
    first. An element goes before the first one whose key is not larger,
    so elements with equal keys keep the order they had. *)
Fixpoint insert_desc (x : finding) (sorted : list finding) : list finding :=
  match sorted with
  | [] => [x]
  | y :: sorted' =>
      if Qle_bool (key y) (key x) then x :: sorted
      else y :: insert_desc x sorted'
  end.

Definition sort_desc (results : list finding) : list finding :=
  fold_right insert_desc [] results.

(** What a part of the script has written to standard output and how it
    ended. *)
Definition console (A : Type) : Type := (str * outcome A)%type.

Definition and_then {A B : Type} (m : console A) (k : A -> console B) : console B :=
  match m with
  | (out, Returns a) => let '(out', r) := k a in (out ++ out', r)
  | (out, Raises) => (out, Raises)
  end.

(** [print(s)] writes [s] and a newline, or raises and writes nothing. *)
Definition print (s : str) : console unit :=
  if stdout_accepts (s ++ [0x0A]) then (s ++ [0x0A], Returns tt)
  else ([], Raises).

(** The line of one entry of [results], as the body of the last loop builds
    it before printing it. *)
Definition report_line (x : finding) : outcome str :=
  let '(mtime, filepath, reason) := x in
  let rel := OsPath.relpath filepath BASE in
  dt <- fromtimestamp mtime ;;
  let ts := Datetime.strftime dt (lit "%Y-%m-%d %H:%M") in
  Returns (lit "  " ++ ts ++ lit "  " ++ ljust 35 rel ++ lit "  " ++ reason).

(** The last loop. *)
Fixpoint report_loop (results : list finding) : console unit :=
  match results with
  | [] => ([], Returns tt)
  | x :: results' =>
      match report_line x with
      | Returns line => and_then (print line) (fun _ => report_loop results')
      | Raises => ([], Raises)
      end
  end.

(** The [if not results: ... else: ...] statement. *)
Definition report (results : list finding) : console unit :=
  match results with
  | [] => print (lit "All review files are fully handled!")
  | _ :: _ =>
      and_then
        (print (lit "Found " ++ str_of_nat (length results)
                ++ lit " file(s) needing attention:" ++ [0x0A]))
        (fun _ => report_loop results)
  end.

(** The whole script: what it writes to standard output and how it ends. *)
Definition main (fs : filesystem) : console unit :=
  match scan fs with
  | Returns results => report (sort_desc results)
  | Raises => ([], Raises)
  end.

(** A file the script can stat and read. *)
Definition readable (fs : filesystem) (filepath : str) : Prop :=
  (exists mtime, getmtime fs filepath = Returns mtime)
  /\ (exists bytes, read_bytes fs filepath = Returns bytes).

(** The text the script gets from a file, and the entries the file adds
    to [results] (none when the file cannot be read). *)
Definition content_of (fs : filesystem) (filepath : str) : str :=
  match read_bytes fs filepath with
  | Returns bytes =>
      match Utf8.read Utf8.Replace bytes with
      | Utf8.Text content => content
      | Utf8.UnicodeDecodeError => []
      end
  | Raises => []
  end.

Definition findings_of (fs : filesystem) (filepath : str) : list finding :=
  match process_file fs [] filepath with
  | Returns found => found
  | Raises => []
  end.

(** The paths of a run in the order the loops visit them. *)
Definition visited (fs : filesystem) : list str :=
  flat_map (fun d => glob_glob fs (OsPath.join BASE [d; lit "*.txt"])) DIRS.

End Host.

(** *** Vocabulary of the statements *)

Definition all_space (w : str) : Prop := Forall (fun c => isspace c = true) w.

Definition has_prefix (prefix s : str) : Prop := exists rest, s = prefix ++ rest.

(** [s] ends with a hyphen, optional whitespace, the word pending and
    optional whitespace. *)
Definition ends_hyphen_pending (s : str) : Prop :=
  exists pre w1 w2,
    s = pre ++ 0x2D :: w1 ++ lit "pending" ++ w2 /\ all_space w1 /\ all_space w2.

(** The end pattern in the words of the specification: optional whitespace,
    the word pending, optional whitespace, at the end of the line. *)
Definition spec_ends_pending (s : str) : Prop :=
  exists pre w1 w2,
    s = pre ++ w1 ++ lit "pending" ++ w2 /\ all_space w1 /\ all_space w2.

(** A pending issue line in the words of the specification. *)
Definition spec_pending (line : str) : Prop :=
  has_prefix (lit "- Issue") (strip line) /\ spec_ends_pending (strip line).

(** A field padded or truncated to exactly [w] columns, and the report line
    with such a path field, in the words of the specification. *)
Definition spec_pad_or_truncate (w : nat) (s : str) : str := firstn w (ljust w s).

Definition spec_report_line (fromtimestamp : Q -> outcome Datetime.datetime)
           (x : finding) : outcome str :=
  let '(mtime, filepath, reason) := x in
  dt <- fromtimestamp mtime ;;
  Returns (lit "  " ++ Datetime.strftime dt (lit "%Y-%m-%d %H:%M")
           ++ lit "  " ++ spec_pad_or_truncate 35 (OsPath.relpath filepath BASE)
           ++ lit "  " ++ reason).


(** A decimal digit, and a field of exactly [w] digits. *)
Definition is_digit (c : char) : bool := (0x30 <=? c) && (c <=? 0x39).

Definition digits (w : nat) (s : str) : bool :=
  (length s =? w)%nat && forallb is_digit s.

(** [a] may stand before [b] in the report: it is not older. *)
Definition not_older (a b : finding) : Prop := (key b <= key a)%Q.

(** The entries modified at time [t]. *)
Definition at_time (t : Q) (l : list finding) : list finding :=
  filter (fun x => Qeq_bool (key x) t) l.

End Scanner.

(** ** Sample inputs *)

Module Samples.
Import PyStr Scanner.

(** The text of a file with the given lines, each ended by a newline. *)
Definition unlines (ls : list str) : str := concat (map (fun l => l ++ [0x0A]) ls).

(** A host whose upper-casing leaves the code points above U+007F alone. *)
Definition plain_upper : char -> str := fun c => [c].

Definition login_path : str := lit "/home/artur/keep.ai/reviews/2026-01-15-login.txt".

Definition two_headings : str :=
  unlines [lit "ISSUE REVIEW";
           lit "- Issue 1: early - pending";
           lit "=== ISSUE REVIEW ===";
           lit "- Issue 2: late - resolved"].

Definition no_heading : str :=
  unlines [lit "Notes on the login flow";
           lit "- Issue 1: foo - pending"].

Definition one_pending : str :=
  unlines [lit "=== ISSUE REVIEW ===";
           lit "- Issue 1: foo - pending";
           lit "- Issue 2: bar - resolved"].

Definition all_resolved : str :=
  unlines [lit "=== ISSUE REVIEW ===";
           lit "- Issue 1: foo - resolved"].

Definition two_pending : str :=
  unlines [lit "Summary";
           lit "== Issue Review ==";
           lit "- Issue 1: foo - pending";
           lit "- Issue 2: bar - resolved";
           lit "  - Issue 3: baz -pending  "].

Definition long_path : str :=
  lit "/home/artur/keep.ai/ux-tests/2026-02-03-onboarding-wizard-walkthrough.txt".

(** A host whose local time is always 15 January 2026, 09:05. *)
Definition fixed_clock : Q -> outcome Datetime.datetime :=
  fun _ => Returns
             {| Datetime.year := 2026; Datetime.month := 1; Datetime.day := 15;
                Datetime.hour := 9; Datetime.minute := 5; Datetime.second := 0 |}.

(** A host for which every time is out of range. *)
Definition no_clock : Q -> outcome Datetime.datetime := fun _ => Raises.

(** A standard output that takes every text. *)
Definition any_text : str -> bool := fun _ => true.

(** The bytes of an ASCII text. *)
Definition ascii_bytes (s : str) : list Byte.byte :=
  map (fun c => match Byte.of_N c with Some b => b | None => Byte.x3f end) s.

Definition draft_path : str := lit "/home/artur/keep.ai/reviews/draft.txt".
Definition wizard_path : str := lit "/home/artur/keep.ai/ux-tests/wizard.txt".

(** A tree with two files under "reviews" and one under "ux-tests". The
    second has no heading, and the third holds a byte (0xE9) that is no
    UTF-8. The file under "ux-tests" is the newest, the first one the
    oldest. *)
Definition sample_fs : filesystem := {|
  glob_glob pattern :=
    if eqb_str pattern (lit "/home/artur/keep.ai/reviews/*.txt")
    then [login_path; draft_path]
    else if eqb_str pattern (lit "/home/artur/keep.ai/ux-tests/*.txt")
    then [wizard_path]
    else [];
  getmtime filepath :=
    if eqb_str filepath login_path then Returns 1767000000.25%Q
    else if eqb_str filepath draft_path then Returns 1767000100%Q
    else Returns 1767000200.5%Q;
  read_bytes filepath :=
    if eqb_str filepath login_path then Returns (ascii_bytes one_pending)
    else if eqb_str filepath draft_path then Returns (ascii_bytes no_heading)
    else Returns
           (ascii_bytes (unlines [lit "== ISSUE REVIEW =="] ++ lit "- Issue 1: caf")
            ++ Byte.xe9
               :: ascii_bytes (unlines [lit " - pending"; lit "- Issue 2: x - pending"]))
|}.

(** The same tree with "draft.txt" turned into a directory: the glob still
    matches it and [open] raises. *)
Definition unreadable_fs : filesystem := {|
  glob_glob := glob_glob sample_fs;
  getmtime := getmtime sample_fs;
  read_bytes filepath :=
    if eqb_str filepath draft_path then Raises else read_bytes sample_fs filepath
|}.

(** A tree in which the two patterns match nothing. *)
Definition empty_fs : filesystem := {|
  glob_glob _ := [];
  getmtime _ := Raises;
  read_bytes _ := Raises
|}.

End Samples.

(** ** Vocabulary of the further properties *)

Module Terms.
Import PyStr Scanner.

(** The first, the last character of [s] is outside the class [p]. *)
Definition starts_out (p : char -> bool) (s : str) : Prop :=
  exists x t, s = x :: t /\ p x = false.

Definition ends_out (p : char -> bool) (s : str) : Prop :=
  exists t y, s = t ++ [y] /\ p y = false.

(** The class [strip("=")] removes. *)
Definition is_eq_sign (c : char) : bool := existsb (N.eqb c) (lit "=").

(** What follows a CR once the LF that may come with it is taken. *)
Definition after_cr (s : str) : str :=
  match s with
  | c :: s' => if c =? 0x0A then s' else s
  | [] => []
  end.

(** A line that holds no line boundary. *)
Definition no_break (line : str) : Prop :=
  Forall (fun c => is_linebreak c = false) line.

(** A Unicode scalar value: at most U+10FFFF and no surrogate. *)
Definition scalar (c : char) : Prop :=
  c <= 0x10FFFF /\ ~ (0xD800 <= c <= 0xDFFF).

(** A path component: no separator in it. *)
Definition no_sep (s : str) : Prop := Forall (fun c => (c =? OsPath.sep) = false) s.

(** An entry of [results] as a run builds it: the path of a visited file,
    that file's modification time and one of the two reasons. *)
Definition well_formed (fs : filesystem) (x : finding) : Prop :=
  let '(mtime, filepath, reason) := x in
  In filepath (visited fs)
  /\ getmtime fs filepath = Returns mtime
  /\ (reason = lit "MISSING ISSUE REVIEW section"
      \/ exists n, (1 <= n)%nat
           /\ reason = lit "has " ++ str_of_nat n ++ lit " PENDING issue(s)").

End Terms.

(** ** UTF-8 as the Unicode standard defines it *)

Module Utf8Spec.
Import PyStr Utf8 Terms.

(** The UTF-8 encoding form: the bytes of a scalar value. This is the
    reference the decoder is compared with; the script itself never
    encodes. *)
Definition encode (c : char) : list byte :=
  if c <? 0x80 then [c]
  else if c <? 0x800 then [0xC0 + c / 64; 0x80 + c mod 64]
  else if c <? 0x10000 then
    [0xE0 + c / 4096; 0x80 + (c / 64) mod 64; 0x80 + c mod 64]
  else
    [0xF0 + c / 262144; 0x80 + (c / 4096) mod 64; 0x80 + (c / 64) mod 64;
     0x80 + c mod 64].

Definition encode_all (s : str) : list byte := flat_map encode s.

(** The text [bytes.decode("utf-8", "replace")] yields. *)
Definition lossy (bs : list byte) : str :=
  match decode_from Replace 0 bs with
  | Text s => s
  | UnicodeDecodeError => []
  end.

(** Bytes that begin the encoding of some scalar value. *)
Definition valid_prefix (l : list byte) : Prop :=
  exists c tail, scalar c /\ encode c = l ++ tail.

(** [bad], followed by [next], is an undecodable sequence: no encoding of a
    scalar value starts the bytes [bad ++ next], and [bad] is the longest
    run of them that begins an encoding, or their first byte when no run
    does. *)
Definition undecodable (bad next : list byte) : Prop :=
  bad <> []
  /\ (forall c tail, scalar c -> bad ++ next <> encode c ++ tail)
  /\ (length bad = 1%nat \/ valid_prefix bad)
  /\ (forall y next', next = y :: next' -> ~ valid_prefix (bad ++ [y])).

End Utf8Spec.

Module MoreSamples.
Import PyStr Scanner Samples.

(** Three entries, the last two modified at the same time. *)
Definition three_entries : list finding :=
  [(1%Q, login_path, lit "a"); (3%Q, draft_path, lit "b"); (3%Q, login_path, lit "c")].

(** The entries of [sample_fs] in the order the scan finds them. *)
Definition sample_results : list finding :=
  [(1767000000.25%Q, login_path, lit "has 1 PENDING issue(s)");
   (1767000100%Q, draft_path, lit "MISSING ISSUE REVIEW section");
   (1767000200.5%Q, wizard_path, lit "has 2 PENDING issue(s)")].

(** The tree of [sample_fs] with the three files modified at the same
    time, and its entries in the order the scan finds them. *)
Definition tied_fs : filesystem := {|
  glob_glob := glob_glob sample_fs;
  getmtime _ := Returns 1767000100%Q;
  read_bytes := read_bytes sample_fs
|}.

Definition tied_results : list finding :=
  [(1767000100%Q, login_path, lit "has 1 PENDING issue(s)");
   (1767000100%Q, draft_path, lit "MISSING ISSUE REVIEW section");
   (1767000100%Q, wizard_path, lit "has 2 PENDING issue(s)")].

End MoreSamples.

(** * Properties *)

(** ** Strings and patterns *)

Module PyStrFacts.
Import PyStr.

Lemma startswith_spec (prefix s : str) :
  startswith s prefix = true <-> exists rest, s = prefix ++ rest.
Proof.
  revert s; induction prefix as [|p prefix IH]; intros s; simpl.
  - split; [intros _; now exists s | reflexivity].
  - destruct s as [|c s]; simpl.
    + split; [discriminate | intros [rest H]; discriminate].
    + rewrite andb_true_iff, N.eqb_eq, IH. split.
      * intros [-> [rest ->]]. now exists rest.
      * intros [rest H]. injection H as -> ->. split; [reflexivity | now exists rest].
Qed.

Lemma forallb_Forall (p : char -> bool) (w : str) :
  forallb p w = true <-> Forall (fun c => p c = true) w.
Proof.
  rewrite forallb_forall, Forall_forall. reflexivity.
Qed.

End PyStrFacts.

Module ReFacts.
Import PyStr Re.

(** A starred class takes some run of class characters and leaves the rest
    to the continuation. *)
Lemma star_then_spec (cls : char -> bool) (k : str -> bool) (s : str) :
  star_then cls k s = true <->
  exists w rest, s = w ++ rest /\ Forall (fun c => cls c = true) w /\ k rest = true.
Proof.
  induction s as [|c s IH]; simpl.
  - split.
    + intros H. exists [], []. repeat split; [constructor | assumption].
    + intros (w & rest & E & _ & K).
      symmetry in E. apply app_eq_nil in E. destruct E as [_ ->]. assumption.
  - rewrite orb_true_iff, andb_true_iff, IH. split.
    + intros [[C (w & rest & -> & W & K)] | K].
      * exists (c :: w), rest. repeat split; [constructor|]; assumption.
      * exists [], (c :: s). repeat split; [constructor | assumption].
    + intros (w & rest & E & W & K). destruct w as [|x w]; simpl in E.
      * right. now subst rest.
      * injection E as -> ->. inversion W; subst. left. split; [assumption|].
        now exists w, rest.
Qed.

Lemma match_here_chars (l : str) (pat : pattern) (s : str) :
  match_here (map Chr l ++ pat) s = true <->
  exists rest, s = l ++ rest /\ match_here pat rest = true.
Proof.
  revert s; induction l as [|c l IH]; intros s; simpl.
  - split; [intros H; now exists s | now intros (rest & -> & H)].
  - destruct s as [|x s].
    + split; [discriminate | intros (rest & E & _); discriminate].
    + rewrite andb_true_iff, N.eqb_eq, IH. split.
      * intros [-> (rest & -> & H)]. now exists rest.
      * intros (rest & E & H). injection E as -> ->. split; [reflexivity | now exists rest].
Qed.

Lemma search_spec (pat : pattern) (s : str) :
  search pat s = true <->
  exists pre rest, s = pre ++ rest /\ match_here pat rest = true.
Proof.
  induction s as [|c s IH].
  - simpl. rewrite orb_false_r. split.
    + intros H. now exists [], [].
    + intros (pre & rest & E & H).
      symmetry in E. apply app_eq_nil in E. destruct E as [_ ->]. assumption.
  - cbn [search]. rewrite orb_true_iff, IH. split.
    + intros [H | (pre & rest & -> & H)].
      * now exists [], (c :: s).
      * now exists (c :: pre), rest.
    + intros (pre & rest & E & H). destruct pre as [|x pre]; simpl in E.
      * left. now subst rest.
      * injection E as -> ->. right. now exists pre, rest.
Qed.

(** [\s*$] at the end of a pattern accepts exactly a run of whitespace. *)
Lemma trailing_space_spec (s : str) :
  match_here [Star isspace; Dollar] s = true <-> Forall (fun c => isspace c = true) s.
Proof.
  cbn [match_here]. rewrite star_then_spec. split.
  - intros (w & rest & -> & W & E). apply Forall_app. split; [assumption|].
    rewrite andb_true_r in E.
    destruct rest as [|c rest]; [constructor|].
    assert (c = 0x0A /\ rest = []) as [-> ->].
    { revert E. unfold at_end.
      destruct c as [|p]; [discriminate|].
      do 4 (destruct p as [p|p|]; try discriminate).
      destruct rest; [split; reflexivity | discriminate]. }
    repeat constructor.
  - intros W. exists s, []. rewrite app_nil_r. repeat split; assumption.
Qed.

End ReFacts.

(** ** Pending issue lines *)

Module PendingFacts.
Import PyStr Re Scanner PyStrFacts ReFacts.

Lemma pending_re_spec (s : str) :
  search pending_re s = true <-> ends_hyphen_pending s.
Proof.
  unfold ends_hyphen_pending, all_space, pending_re.
  rewrite search_spec. split.
  - intros (pre & rest & -> & M).
    cbn [match_here] in M. destruct rest as [|x r1]; [discriminate|].
    apply andb_true_iff in M. destruct M as [X M]. apply N.eqb_eq in X. subst x.
    apply star_then_spec in M. destruct M as (w1 & r2 & -> & W1 & M).
    unfold chars in M. apply match_here_chars in M. destruct M as (w2 & -> & M).
    apply trailing_space_spec in M.
    exists pre, w1, w2. repeat split; assumption.
  - intros (pre & w1 & w2 & -> & W1 & W2).
    exists pre, (0x2D :: w1 ++ lit "pending" ++ w2). split; [reflexivity|].
    cbn [match_here]. rewrite N.eqb_refl. cbn [andb].
    apply star_then_spec. exists w1, (lit "pending" ++ w2).
    repeat split; [assumption|].
    unfold chars. apply match_here_chars. exists w2. split; [reflexivity|].
    now apply trailing_space_spec.
Qed.

Lemma is_pending_spec (line : str) :
  is_pending line = true <->
  has_prefix (lit "- Issue") (strip line) /\ ends_hyphen_pending (strip line).
Proof.
  unfold is_pending, has_prefix.
  rewrite andb_true_iff, startswith_spec, pending_re_spec. reflexivity.
Qed.

Lemma count_pending_from (review_lines : list str) (n : nat) :
  fold_left (fun pending_count line =>
               if is_pending line then S pending_count else pending_count)
            review_lines n
  = (n + length (filter is_pending review_lines))%nat.
Proof.
  revert n; induction review_lines as [|line ls IH]; intros n; simpl.
  - lia.
  - rewrite IH. destruct (is_pending line); simpl; lia.
Qed.

Lemma count_pending_filter (review_lines : list str) :
  count_pending review_lines = length (filter is_pending review_lines).
Proof.
  unfold count_pending. now rewrite count_pending_from.
Qed.

(** C1, as the script has it: every line of the scanned lines that passes
    the pending test adds one to the count, and a line passes exactly when
    its trimmed form starts with "- Issue" and ends with a hyphen, optional
    whitespace, the word pending and optional whitespace. *)
Theorem pending_counted_iff :
  (forall review_lines,
      count_pending review_lines = length (filter is_pending review_lines))
  /\ (forall line,
      is_pending line = true <->
      has_prefix (lit "- Issue") (strip line) /\ ends_hyphen_pending (strip line)).
Proof.
  split; [exact count_pending_filter | exact is_pending_spec].
Qed.

(** C1, as the specification words it, fails: the line "- Issue 1: pending"
    starts with "- Issue" and ends with the word pending, and the script does
    not count it, since no hyphen stands before the word. *)
Lemma pending_without_hyphen_not_counted :
  ~ (is_pending (lit "- Issue 1: pending") = true
     <-> spec_pending (lit "- Issue 1: pending")).
Proof.
  intros [_ H].
  assert (P : spec_pending (lit "- Issue 1: pending")).
  { split.
    - exists (lit " 1: pending"). reflexivity.
    - exists (lit "- Issue 1:"), (lit " "), []. split; [reflexivity|].
      split; [repeat constructor | constructor]. }
  specialize (H P). vm_compute in H. discriminate.
Qed.

(** The two lines the specification gives as examples. *)
Example pending_review_not_counted :
  is_pending (lit "- Issue 3: blocked - pending review") = false.
Proof. vm_compute. reflexivity. Qed.

Example blocked_pending_counted :
  is_pending (lit "- Issue 3: blocked - pending") = true.
Proof. vm_compute. reflexivity. Qed.

End PendingFacts.

(** ** The heading loop and the body of the file loop *)

Module FileFacts.
Import PyStr Scanner PendingFacts.

Section Host.
Variable upper_ext : char -> str.

Local Abbreviation is_heading := (is_heading upper_ext).
Local Abbreviation heading_loop := (heading_loop upper_ext).
Local Abbreviation find_issue_review_idx := (find_issue_review_idx upper_ext).
Local Abbreviation file_body := (file_body upper_ext).

Lemma eqb_str_eq (a b : str) : eqb_str a b = true <-> a = b.
Proof.
  unfold eqb_str. destruct (list_eq_dec N.eq_dec a b); split; congruence.
Qed.

Lemma is_heading_false (line : str) :
  upper upper_ext (strip (strip_chars (lit "=") (strip line))) <> lit "ISSUE REVIEW" ->
  is_heading line = false.
Proof.
  intros H. unfold Scanner.is_heading.
  destruct (eqb_str _ _) eqn:E; [|reflexivity].
  apply eqb_str_eq in E. contradiction.
Qed.

(** Lines that are no heading leave [issue_review_idx] as it is. *)
Lemma heading_loop_no_heading (lines : list str) (i : nat) (idx : option nat) :
  Forall (fun line => is_heading line = false) lines ->
  heading_loop i lines idx = idx.
Proof.
  intros H; revert i; induction H as [|line lines L _ IH]; intros i; simpl.
  - reflexivity.
  - rewrite L. apply IH.
Qed.

(** The loop ends with the index of the last heading. *)
Lemma heading_loop_last (pre : list str) (h : str) (post : list str)
      (i : nat) (idx : option nat) :
  is_heading h = true ->
  Forall (fun line => is_heading line = false) post ->
  heading_loop i (pre ++ h :: post) idx = Some (i + length pre)%nat.
Proof.
  intros H P; revert i idx; induction pre as [|line pre IH]; intros i idx; simpl.
  - rewrite H, heading_loop_no_heading by assumption. f_equal. lia.
  - rewrite IH. f_equal. lia.
Qed.

Lemma skipn_length_app (pre rest : list str) : skipn (length pre) (pre ++ rest) = rest.
Proof.
  induction pre as [|x pre IH]; simpl; [reflexivity | exact IH].
Qed.

Lemma file_body_found (results : list finding) (mtime : Q) (filepath content : str)
      (idx : nat) :
  find_issue_review_idx (splitlines content) = Some idx ->
  file_body results mtime filepath content =
  let pending_count := count_pending (skipn idx (splitlines content)) in
  if (0 <? pending_count)%nat
  then results ++ [(mtime, filepath,
                    lit "has " ++ str_of_nat pending_count ++ lit " PENDING issue(s)")]
  else results.
Proof.
  intros H. unfold Scanner.file_body. rewrite H. reflexivity.
Qed.

(** C2: when a file has several headings, the lines before the last one
    play no part. With [h] the last heading, [pre] the lines before it and
    [post] those after it, the loop stops at the index of [h], the scanned
    lines are [h :: post], and what the file adds to [results] is computed
    from the pending lines among [h :: post] alone. *)
Theorem last_heading_delimits (results : list finding) (mtime : Q)
        (filepath content : str) (pre : list str) (h : str) (post : list str) :
  splitlines content = pre ++ h :: post ->
  is_heading h = true ->
  Forall (fun line => is_heading line = false) post ->
  find_issue_review_idx (splitlines content) = Some (length pre)
  /\ skipn (length pre) (splitlines content) = h :: post
  /\ file_body results mtime filepath content =
     let pending_count := length (filter is_pending (h :: post)) in
     if (0 <? pending_count)%nat
     then results ++ [(mtime, filepath,
                       lit "has " ++ str_of_nat pending_count ++ lit " PENDING issue(s)")]
     else results.
Proof.
  intros L H P.
  assert (I : find_issue_review_idx (splitlines content) = Some (length pre)).
  { rewrite L. unfold Scanner.find_issue_review_idx.
    now rewrite heading_loop_last. }
  assert (S : skipn (length pre) (splitlines content) = h :: post).
  { rewrite L. apply skipn_length_app. }
  split; [exact I|]. split; [exact S|].
  rewrite (file_body_found _ _ _ _ _ I), S, count_pending_filter. reflexivity.
Qed.

(** C4: a file none of whose lines is a heading (the line stripped of
    whitespace, then of "=", then of whitespace, and upper-cased, differs
    from "ISSUE REVIEW") adds exactly one entry to [results], with the
    reason "MISSING ISSUE REVIEW section", whatever its lines hold
    otherwise. *)
Theorem no_heading_missing (results : list finding) (mtime : Q)
        (filepath content : str) :
  (forall line, In line (splitlines content) ->
     upper upper_ext (strip (strip_chars (lit "=") (strip line)))
     <> lit "ISSUE REVIEW") ->
  file_body results mtime filepath content
  = results ++ [(mtime, filepath, lit "MISSING ISSUE REVIEW section")].
Proof.
  intros H. unfold Scanner.file_body, Scanner.find_issue_review_idx.
  rewrite heading_loop_no_heading; [reflexivity|].
  apply Forall_forall. intros line L. apply is_heading_false, H, L.
Qed.

(** C6: a file whose lines are the heading "=== ISSUE REVIEW ===", then
    "- Issue 1: foo - pending", then "- Issue 2: bar - resolved" adds
    exactly one entry, with the reason "has 1 PENDING issue(s)". *)
Theorem scenario_one_pending (results : list finding) (mtime : Q)
        (filepath content : str) :
  splitlines content = [lit "=== ISSUE REVIEW ===";
                        lit "- Issue 1: foo - pending";
                        lit "- Issue 2: bar - resolved"] ->
  file_body results mtime filepath content
  = results ++ [(mtime, filepath, lit "has 1 PENDING issue(s)")].
Proof.
  intros H. unfold Scanner.file_body. rewrite H. reflexivity.
Qed.

(** C7: when a heading is found, a pending count of 0 adds nothing to
    [results], and a count of 1 or more adds one entry whose reason is
    "has <count> PENDING issue(s)". *)
Theorem found_heading_reports_pending (results : list finding) (mtime : Q)
        (filepath content : str) (idx : nat) :
  find_issue_review_idx (splitlines content) = Some idx ->
  let pending_count := count_pending (skipn idx (splitlines content)) in
  (pending_count = 0%nat -> file_body results mtime filepath content = results)
  /\ ((1 <= pending_count)%nat ->
      file_body results mtime filepath content
      = results ++ [(mtime, filepath,
                     lit "has " ++ str_of_nat pending_count ++ lit " PENDING issue(s)")]).
Proof.
  intros H pending_count. rewrite (file_body_found _ _ _ _ _ H).
  fold pending_count. cbv zeta. split; intros C.
  - rewrite C. reflexivity.
  - destruct pending_count; [lia | reflexivity].
Qed.

End Host.

Import Samples.

Lemma last_heading_delimits_witness :
  splitlines two_headings
  = [lit "ISSUE REVIEW"; lit "- Issue 1: early - pending"]
    ++ lit "=== ISSUE REVIEW ===" :: [lit "- Issue 2: late - resolved"]
  /\ is_pending (lit "- Issue 1: early - pending") = true
  /\ file_body plain_upper [] 0 login_path two_headings = [].
Proof.
  split; [reflexivity|]. split; [reflexivity|].
  refine (proj2 (proj2 (last_heading_delimits plain_upper [] 0 login_path two_headings
                          [lit "ISSUE REVIEW"; lit "- Issue 1: early - pending"]
                          (lit "=== ISSUE REVIEW ===")
                          [lit "- Issue 2: late - resolved"] _ _ _))).
  - reflexivity.
  - reflexivity.
  - repeat constructor.
Defined.

Lemma no_heading_missing_witness :
  file_body plain_upper [] 0 login_path no_heading
  = [(0%Q, login_path, lit "MISSING ISSUE REVIEW section")].
Proof.
  apply (no_heading_missing plain_upper [] 0 login_path no_heading).
  intros line H. cbv in H.
  destruct H as [<- | [<- | []]]; intros E; vm_compute in E; discriminate E.
Defined.

Lemma scenario_one_pending_witness :
  file_body plain_upper [] 0 login_path one_pending
  = [(0%Q, login_path, lit "has 1 PENDING issue(s)")].
Proof.
  apply (scenario_one_pending plain_upper [] 0 login_path one_pending).
  reflexivity.
Defined.

Lemma found_heading_reports_pending_witness :
  file_body plain_upper [] 0 login_path all_resolved = []
  /\ file_body plain_upper [] 0 login_path two_pending
     = [(0%Q, login_path, lit "has 2 PENDING issue(s)")].
Proof.
  split.
  - apply (proj1 (found_heading_reports_pending plain_upper [] 0 login_path
                    all_resolved 0 eq_refl)).
    reflexivity.
  - apply (proj2 (found_heading_reports_pending plain_upper [] 0 login_path
                    two_pending 1 eq_refl)).
    vm_compute. lia.
Defined.

End FileFacts.

(** ** Reading with [errors="replace"] *)

Module Utf8Facts.
Import PyStr Utf8.

Lemma emit_text (c : char) (d : decoded) (s : str) :
  emit c d = Text s -> exists s', d = Text s' /\ s = c :: s'.
Proof.
  destruct d as [s'|]; simpl; [|discriminate].
  intros H. injection H as <-. now exists s'.
Qed.

(** Under [Replace] the loop yields a text for every input. *)
Lemma decode_from_replace_total (bs : list byte) (skip : nat) :
  exists s, decode_from Replace skip bs = Text s.
Proof.
  revert skip; induction bs as [|b rest IH]; intros skip; simpl.
  - now exists [].
  - destruct skip as [|k]; [|apply IH].
    destruct (decode_one b rest) as [c len|len];
      destruct (IH (len - 1)%nat) as [s ->]; simpl; eauto.
Qed.

(** Where strict decoding succeeds, [Replace] yields the same text. *)
Lemma decode_from_strict_agrees (bs : list byte) (skip : nat) (s : str) :
  decode_from Strict skip bs = Text s -> decode_from Replace skip bs = Text s.
Proof.
  revert skip s; induction bs as [|b rest IH]; intros skip s; simpl.
  - trivial.
  - destruct skip as [|k]; [|apply IH].
    destruct (decode_one b rest) as [c len|len]; [|discriminate].
    intros H. apply emit_text in H. destruct H as (s' & H & ->).
    now rewrite (IH _ _ H).
Qed.

(** Where strict decoding fails, the text [Replace] yields holds U+FFFD. *)
Lemma decode_from_strict_fails (bs : list byte) (skip : nat) :
  decode_from Strict skip bs = UnicodeDecodeError ->
  exists s, decode_from Replace skip bs = Text s /\ In REPLACEMENT s.
Proof.
  revert skip; induction bs as [|b rest IH]; intros skip; simpl.
  - discriminate.
  - destruct skip as [|k]; [|apply IH].
    destruct (decode_one b rest) as [c len|len].
    + intros H. destruct (decode_from Strict (len - 1) rest) eqn:E; [discriminate|].
      destruct (IH _ E) as (s & -> & I). exists (c :: s). split; [reflexivity | now right].
    + intros _. destruct (decode_from_replace_total rest (len - 1)) as [s ->].
      exists (REPLACEMENT :: s). split; [reflexivity | now left].
Qed.

(** Newline translation keeps every character other than CR. *)
Lemma universal_newlines_keeps (c : char) (s : str) :
  c <> 0x0D -> In c s -> In c (universal_newlines s).
Proof.
  intros C. remember (length s) as n eqn:L.
  assert (B : (length s <= n)%nat) by lia. clear L.
  revert s B; induction n as [|n IH]; intros s B I.
  - destruct s; [destruct I | simpl in B; lia].
  - destruct s as [|x s]; [destruct I|]. simpl in B.
    cbn [universal_newlines]. destruct (x =? 0x0D) eqn:X.
    + apply N.eqb_eq in X. subst x. destruct I as [E | I]; [congruence|].
      destruct s as [|y s]; [destruct I|]. simpl in B.
      destruct (y =? 0x0A) eqn:Y.
      * apply N.eqb_eq in Y. subst y.
        destruct I as [E | I]; [now left | right; apply IH; [lia | exact I]].
      * right. apply IH; [simpl; lia | exact I].
    + destruct I as [E | I]; [now left | right; apply IH; [lia | exact I]].
Qed.

(** [open] with [errors="replace"] yields a text for every file. *)
Lemma read_replace_total (bs : list Byte.byte) :
  exists content, read Replace bs = Text content.
Proof.
  unfold read, decode.
  destruct (decode_from_replace_total (map Byte.to_N bs) 0) as [s ->]. eauto.
Qed.

Lemma read_strict_agrees (bs : list Byte.byte) (s : str) :
  read Strict bs = Text s -> read Replace bs = Text s.
Proof.
  unfold read, decode. destruct (decode_from Strict _ _) eqn:E; [|discriminate].
  now rewrite (decode_from_strict_agrees _ _ _ E).
Qed.

Lemma read_strict_fails (bs : list Byte.byte) :
  read Strict bs = UnicodeDecodeError ->
  exists content, read Replace bs = Text content /\ In REPLACEMENT content.
Proof.
  unfold read, decode. destruct (decode_from Strict _ _) eqn:E; [discriminate|].
  intros _. destruct (decode_from_strict_fails _ _ E) as (s & -> & I).
  exists (universal_newlines s). split; [reflexivity|].
  apply universal_newlines_keeps; [discriminate | exact I].
Qed.

(** A byte that starts no sequence: the strict decoder raises, the
    replacing one yields U+FFFD. *)
Example invalid_start_byte :
  decode Strict [Byte.xff] = UnicodeDecodeError
  /\ decode Replace [Byte.xff] = Text [REPLACEMENT].
Proof. split; reflexivity. Qed.

End Utf8Facts.

(** ** The decoder against the encoding form *)

Module EncodingFacts.
Import PyStr Utf8 Terms Utf8Spec Utf8Facts.

Local Ltac Zify.zify_post_hook ::= Z.to_euclidean_division_equations.

(** Settle the tests of the goal one after the other; arithmetic closes the
    branch that cannot be. *)
Ltac settle :=
  repeat (cbn [andb orb negb app];
          match goal with
          | |- context [?a <? ?b] => destruct (N.ltb_spec a b); try lia
          | |- context [?a <=? ?b] => destruct (N.leb_spec a b); try lia
          | |- context [?a =? ?b] => destruct (N.eqb_spec a b); try lia
          end).

Lemma enc2 (b b2 : byte) :
  0xC2 <= b <= 0xDF -> 0x80 <= b2 <= 0xBF ->
  let c := (b - 0xC0) * 64 + (b2 - 0x80) in
  scalar c /\ encode c = [b; b2].
Proof.
  intros B B2 c. subst c. split; [unfold scalar; lia|].
  unfold encode. settle. repeat f_equal; lia.
Qed.

Lemma enc3 (b b2 b3 : byte) :
  0xE0 <= b <= 0xEF -> 0x80 <= b2 <= 0xBF -> 0x80 <= b3 <= 0xBF ->
  (b = 0xE0 -> 0xA0 <= b2) -> (b = 0xED -> b2 < 0xA0) ->
  let c := (b - 0xE0) * 4096 + (b2 - 0x80) * 64 + (b3 - 0x80) in
  scalar c /\ encode c = [b; b2; b3].
Proof.
  intros B B2 B3 L S c. subst c. split; [unfold scalar; lia|].
  unfold encode. settle. repeat f_equal; lia.
Qed.

Lemma enc4 (b b2 b3 b4 : byte) :
  0xF0 <= b <= 0xF4 -> 0x80 <= b2 <= 0xBF -> 0x80 <= b3 <= 0xBF ->
  0x80 <= b4 <= 0xBF ->
  (b = 0xF0 -> 0x90 <= b2) -> (b = 0xF4 -> b2 < 0x90) ->
  let c := (b - 0xF0) * 262144 + (b2 - 0x80) * 4096 + (b3 - 0x80) * 64 + (b4 - 0x80) in
  scalar c /\ encode c = [b; b2; b3; b4].
Proof.
  intros B B2 B3 B4 L S c. subst c. split; [unfold scalar; lia|].
  unfold encode. settle. repeat f_equal; lia.
Qed.

(** The four forms of an encoding (table 3-7 of the standard). *)
Lemma encode_cases (c : char) :
  scalar c ->
  (exists b, encode c = [b] /\ b <= 0x7F /\ c = b)
  \/ (exists b b2, encode c = [b; b2] /\ 0xC2 <= b <= 0xDF /\ 0x80 <= b2 <= 0xBF
        /\ c = (b - 0xC0) * 64 + (b2 - 0x80))
  \/ (exists b b2 b3, encode c = [b; b2; b3] /\ 0xE0 <= b <= 0xEF
        /\ 0x80 <= b2 <= 0xBF /\ 0x80 <= b3 <= 0xBF
        /\ (b = 0xE0 -> 0xA0 <= b2) /\ (b = 0xED -> b2 < 0xA0)
        /\ c = (b - 0xE0) * 4096 + (b2 - 0x80) * 64 + (b3 - 0x80))
  \/ (exists b b2 b3 b4, encode c = [b; b2; b3; b4] /\ 0xF0 <= b <= 0xF4
        /\ 0x80 <= b2 <= 0xBF /\ 0x80 <= b3 <= 0xBF /\ 0x80 <= b4 <= 0xBF
        /\ (b = 0xF0 -> 0x90 <= b2) /\ (b = 0xF4 -> b2 < 0x90)
        /\ c = (b - 0xF0) * 262144 + (b2 - 0x80) * 4096 + (b3 - 0x80) * 64
               + (b4 - 0x80)).
Proof.
  intros [U S]. unfold encode.
  destruct (N.ltb_spec c 0x80); [left; eexists; split; [reflexivity | lia]|].
  destruct (N.ltb_spec c 0x800);
    [right; left; do 2 eexists; split; [reflexivity|]; repeat split; lia|].
  destruct (N.ltb_spec c 0x10000);
    [right; right; left; do 3 eexists; split; [reflexivity|]; repeat split; lia|].
  right; right; right; do 4 eexists; split; [reflexivity|]; repeat split; lia.
Qed.

(** The decoder reads back every encoding. *)
Lemma decode_one_encode (c : char) (rest : list byte) :
  scalar c ->
  exists b tl,
    encode c = b :: tl /\ decode_one b (tl ++ rest) = Point c (S (length tl)).
Proof.
  intros Sc.
  destruct (encode_cases c Sc)
    as [(b & E & B & C)
       | [(b & b2 & E & B & B2 & C)
         | [(b & b2 & b3 & E & B & B2 & B3 & L & S & C)
           | (b & b2 & b3 & b4 & E & B & B2 & B3 & B4 & L & S & C)]]];
    rewrite E; do 2 eexists; (split; [reflexivity|]);
    unfold decode_one, is_cont; settle; subst c; reflexivity.
Qed.

(** Bytes passed over do not count. *)
Lemma decode_from_skip (h : handler) (l rest : list byte) :
  decode_from h (length l) (l ++ rest) = decode_from h 0 rest.
Proof.
  induction l as [|x l IH]; simpl; [|exact IH].
  destruct rest; reflexivity.
Qed.

Lemma decode_from_encode (h : handler) (c : char) (rest : list byte) :
  scalar c ->
  decode_from h 0 (encode c ++ rest) = emit c (decode_from h 0 rest).
Proof.
  intros Sc. destruct (decode_one_encode c rest Sc) as (b & tl & E & D).
  rewrite E. cbn [app decode_from]. rewrite D.
  replace (S (length tl) - 1)%nat with (length tl) by lia.
  now rewrite decode_from_skip.
Qed.

Lemma lossy_encode (c : char) (rest : list byte) :
  scalar c -> lossy (encode c ++ rest) = c :: lossy rest.
Proof.
  intros Sc. unfold lossy. rewrite decode_from_encode by assumption.
  now destruct (decode_from_replace_total rest 0) as [s ->].
Qed.

(** Well-formed text in front of any bytes is read as it is, and reading
    goes on after it. *)
Lemma lossy_encode_all (s : str) (rest : list byte) :
  Forall scalar s -> lossy (encode_all s ++ rest) = s ++ lossy rest.
Proof.
  induction 1 as [|c s C _ IH]; simpl; [reflexivity|].
  rewrite <- app_assoc, lossy_encode by assumption. now rewrite IH.
Qed.

Lemma strict_encode_all (s : str) :
  Forall scalar s -> decode_from Strict 0 (encode_all s) = Text s.
Proof.
  induction 1 as [|c s C _ IH]; simpl; [reflexivity|].
  rewrite decode_from_encode by assumption. now rewrite IH.
Qed.

Ltac split_on H :=
  repeat (cbn [andb orb negb] in H; cbv iota in H;
          match type of H with
          | context [?b <? ?k] => destruct (N.ltb_spec b k)
          | context [match ?l with [] => _ | _ :: _ => _ end] => destruct l
          | context [?a <=? ?b] => destruct (N.leb_spec a b)
          | context [?a =? ?b] => destruct (N.eqb_spec a b)
          end).

(** What the decoder takes for a code point is the encoding of that code
    point. *)
Lemma decoded_is_encoding (b : byte) (rest : list byte) (c : char) (len : nat) :
  decode_one b rest = Point c len ->
  scalar c /\ length (encode c) = len
  /\ exists rest', b :: rest = encode c ++ rest'.
Proof.
  unfold decode_one, is_cont. intros H. split_on H; try discriminate H;
    injection H as <- <-.
  all: first
    [ (* one byte *)
      split; [unfold scalar; lia|]; unfold encode; settle;
      split; [reflexivity | eexists; reflexivity]
    | (* two bytes *)
      match goal with
      | |- context [(?b - 0xC0) * 64 + (?b2 - 0x80)] =>
          destruct (enc2 b b2) as [S E]; [lia | lia |]
      end; rewrite E; split; [exact S|]; split; [reflexivity | eexists; reflexivity]
    | match goal with
      | |- context [(?b - 0xE0) * 4096 + (?b2 - 0x80) * 64 + (?b3 - 0x80)] =>
          destruct (enc3 b b2 b3) as [S E]; [lia | lia | lia | lia | lia |]
      end; rewrite E; split; [exact S|]; split; [reflexivity | eexists; reflexivity]
    | match goal with
      | |- context [(?b - 0xF0) * 262144 + (?b2 - 0x80) * 4096 + (?b3 - 0x80) * 64
                    + (?b4 - 0x80)] =>
          destruct (enc4 b b2 b3 b4) as [S E]; [lia | lia | lia | lia | lia | lia |]
      end; rewrite E; split; [exact S|]; split; [reflexivity | eexists; reflexivity] ].
Qed.

Lemma valid_prefix_app (l m : list byte) : valid_prefix (l ++ m) -> valid_prefix l.
Proof.
  intros (c & tail & S & E). exists c, (m ++ tail). split; [exact S|].
  now rewrite app_assoc.
Qed.

(** Bytes that begin no encoding. *)
Ltac refute_prefix :=
  let c := fresh "c" in
  let tail := fresh "tail" in
  let Sc := fresh "Sc" in
  let E := fresh "E" in
  intros (c & tail & Sc & E);
  destruct (encode_cases c Sc)
    as [(? & E' & ?)
       | [(? & ? & E' & ?)
         | [(? & ? & ? & E' & ?) | (? & ? & ? & ? & E' & ?)]]];
  rewrite E' in E; cbn [app] in E; inversion E; subst; lia.

(** Bytes that begin an encoding: fill up with continuation bytes. *)
Ltac prefix_witness :=
  match goal with
  | |- valid_prefix [?b; ?b2] =>
      first
        [ destruct (enc3 b b2 0x80) as [S E]; [lia .. |];
          eexists _, [0x80]; split; [exact S | rewrite E; reflexivity]
        | destruct (enc4 b b2 0x80 0x80) as [S E]; [lia .. |];
          eexists _, [0x80; 0x80]; split; [exact S | rewrite E; reflexivity] ]
  | |- valid_prefix [?b; ?b2; ?b3] =>
      destruct (enc4 b b2 b3 0x80) as [S E]; [lia .. |];
      eexists _, [0x80]; split; [exact S | rewrite E; reflexivity]
  end.

(** The bytes an error covers are the longest run at that place that begins
    an encoding, or one byte when none does. *)
Lemma invalid_is_maximal (b : byte) (rest : list byte) (len : nat) :
  decode_one b rest = Invalid len ->
  (1 <= len <= S (length rest))%nat
  /\ (len = 1%nat \/ valid_prefix (firstn len (b :: rest)))
  /\ (forall y, nth_error (b :: rest) len = Some y ->
        ~ valid_prefix (firstn len (b :: rest) ++ [y])).
Proof.
  unfold decode_one, is_cont. intros H. split_on H; try discriminate H;
    injection H as <-.
  all: split; [simpl; lia|].
  all: split;
    [ first [ left; reflexivity | right; cbn [firstn]; prefix_witness ]
    | intros y Y; cbn [nth_error] in Y;
      first [ discriminate Y
            | injection Y as <-; cbn [firstn app]; refute_prefix
            | clear Y; cbn [firstn app]; refute_prefix ] ].
Qed.

Lemma firstn_snoc {A : Type} (l : list A) (k : nat) (y : A) :
  nth_error l k = Some y -> firstn k l ++ [y] = firstn (S k) l.
Proof.
  revert k; induction l as [|x l IH]; intros k H.
  - destruct k; discriminate H.
  - destruct k as [|k]; simpl in *.
    + now injection H as ->.
    + f_equal. now apply IH.
Qed.

(** At an undecodable sequence the decoder reports an error that covers
    exactly that sequence. *)
Lemma undecodable_head (bad next : list byte) :
  undecodable bad next ->
  exists b bt,
    bad = b :: bt /\ decode_one b (bt ++ next) = Invalid (length bad).
Proof.
  intros (N1 & N2 & N3 & N4).
  destruct bad as [|b bt]; [contradiction|]. exists b, bt. split; [reflexivity|].
  destruct (decode_one b (bt ++ next)) as [c len|len] eqn:D.
  - exfalso. apply decoded_is_encoding in D. destruct D as (Sc & _ & rest' & E).
    exact (N2 c rest' Sc E).
  - f_equal. apply invalid_is_maximal in D. destruct D as (R & V & M).
    change (b :: bt ++ next) with ((b :: bt) ++ next) in V, M.
    rewrite length_app in R.
    destruct (lt_eq_lt_dec len (length (b :: bt))) as [[LT | EQ] | GT];
      [exfalso | exact EQ | exfalso].
    + assert (P : valid_prefix (b :: bt)).
      { destruct N3 as [N3 | N3]; [lia | exact N3]. }
      assert (Y : exists y, nth_error ((b :: bt) ++ next) len = Some y).
      { destruct (nth_error ((b :: bt) ++ next) len) as [y|] eqn:Y; [eauto|].
        apply nth_error_None in Y. rewrite length_app in Y. lia. }
      destruct Y as [y Y]. apply (M y Y).
      rewrite (firstn_snoc _ _ _ Y), firstn_app.
      replace (S len - length (b :: bt))%nat with 0%nat by lia.
      cbn [firstn]. rewrite app_nil_r.
      rewrite <- (firstn_skipn (S len) (b :: bt)) in P.
      exact (valid_prefix_app _ _ P).
    + assert (P : valid_prefix (firstn len ((b :: bt) ++ next))).
      { destruct V as [V | V]; [simpl in GT; lia | exact V]. }
      destruct next as [|y next'].
      { simpl in R, GT. lia. }
      apply (N4 y next' eq_refl).
      replace ((b :: bt) ++ y :: next') with (((b :: bt) ++ [y]) ++ next') in P
        by now rewrite <- app_assoc.
      rewrite firstn_app, firstn_all2 in P
        by (rewrite length_app; simpl in *; lia).
      exact (valid_prefix_app _ _ P).
Qed.

(** One U+FFFD stands for an undecodable sequence, and reading goes on with
    the byte after it; the strict decoder raises there. *)
Lemma lossy_undecodable (bad next : list byte) :
  undecodable bad next ->
  lossy (bad ++ next) = 0xFFFD :: lossy next
  /\ decode_from Strict 0 (bad ++ next) = UnicodeDecodeError.
Proof.
  intros U. destruct (undecodable_head bad next U) as (b & bt & -> & D).
  unfold lossy. cbn [app decode_from]. rewrite D. split; [|reflexivity].
  replace (length (b :: bt) - 1)%nat with (length bt) by (simpl; lia).
  rewrite decode_from_skip.
  now destruct (decode_from_replace_total next 0) as [s ->].
Qed.

Lemma lossy_replaces (s : str) (bad next : list byte) :
  Forall scalar s -> undecodable bad next ->
  lossy (encode_all s ++ bad ++ next) = s ++ 0xFFFD :: lossy next.
Proof.
  intros S U. rewrite lossy_encode_all by assumption.
  now rewrite (proj1 (lossy_undecodable bad next U)).
Qed.

Lemma strict_raises (s : str) (bad next : list byte) :
  Forall scalar s -> undecodable bad next ->
  decode_from Strict 0 (encode_all s ++ bad ++ next) = UnicodeDecodeError.
Proof.
  intros S U. induction S as [|c s C _ IH]; simpl.
  - exact (proj2 (lossy_undecodable bad next U)).
  - rewrite <- app_assoc, decode_from_encode by assumption. now rewrite IH.
Qed.

(** What [open(..., errors="replace").read()] hands to the script. *)
Lemma read_replace_lossy (bytes : list Byte.byte) :
  read Replace bytes = Text (universal_newlines (lossy (map Byte.to_N bytes))).
Proof.
  unfold read, decode, lossy.
  now destruct (decode_from_replace_total (map Byte.to_N bytes) 0) as [s ->].
Qed.

(** An invalid start byte is an undecodable sequence by itself. *)
Lemma invalid_start_undecodable (x : byte) (next : list byte) :
  0x80 <= x <= 0xC1 \/ 0xF5 <= x ->
  undecodable [x] next.
Proof.
  intros X. split; [discriminate|]. split; [|split; [now left|]].
  - intros c tail Sc E.
    destruct (encode_cases c Sc)
      as [(? & E' & ?)
         | [(? & ? & E' & ?)
           | [(? & ? & ? & E' & ?) | (? & ? & ? & ? & E' & ?)]]];
      rewrite E' in E; cbn [app] in E; inversion E; subst; lia.
  - intros y next' _. cbn [app]. refute_prefix.
Qed.

(** So is a lead byte that no continuation byte follows. *)
Lemma lone_lead_undecodable (x y : byte) (next : list byte) :
  0xC2 <= x <= 0xF4 -> y < 0x80 \/ 0xBF < y ->
  undecodable [x] (y :: next).
Proof.
  intros X Y. split; [discriminate|]. split; [|split; [now left|]].
  - intros c tail Sc E.
    destruct (encode_cases c Sc)
      as [(? & E' & ?)
         | [(? & ? & E' & ?)
           | [(? & ? & ? & E' & ?) | (? & ? & ? & ? & E' & ?)]]];
      rewrite E' in E; cbn [app] in E; inversion E; subst; lia.
  - intros y' next' N. injection N as <- _. cbn [app]. refute_prefix.
Qed.

End EncodingFacts.

(** ** The two loops over directories and files *)

Module ScanFacts.
Import PyStr Scanner Terms Utf8Spec Utf8Facts EncodingFacts.

Section Host.
Variable upper_ext : char -> str.
Variable fs : filesystem.

Local Abbreviation file_body := (file_body upper_ext).
Local Abbreviation process_file := (process_file upper_ext fs).
Local Abbreviation findings_of := (findings_of upper_ext fs).

(** The body only ever appends to [results]. *)
Lemma file_body_appends (results : list finding) (mtime : Q) (filepath content : str) :
  file_body results mtime filepath content
  = results ++ file_body [] mtime filepath content.
Proof.
  unfold Scanner.file_body.
  destruct (find_issue_review_idx _ _) as [idx|]; [|reflexivity].
  cbv zeta. destruct (0 <? _)%nat; [reflexivity | now rewrite app_nil_r].
Qed.

(** A file that can be read is classified from the text read with
    [errors="replace"], whatever its bytes. *)
Lemma process_file_read (results : list finding) (filepath : str)
      (mtime : Q) (bytes : list Byte.byte) :
  getmtime fs filepath = Returns mtime ->
  read_bytes fs filepath = Returns bytes ->
  exists content,
    Utf8.read Utf8.Replace bytes = Utf8.Text content
    /\ process_file results filepath
       = Returns (file_body results mtime filepath content).
Proof.
  intros M B. destruct (read_replace_total bytes) as [content R].
  exists content. split; [exact R|].
  unfold Scanner.process_file. rewrite M, B. cbn [bind]. now rewrite R.
Qed.

(** The file loop goes on after a file exactly when the file is readable. *)
Lemma process_file_cases (results : list finding) (filepath : str) :
  (readable fs filepath
   /\ process_file results filepath = Returns (results ++ findings_of filepath))
  \/ (~ readable fs filepath /\ process_file results filepath = Raises).
Proof.
  unfold readable, Scanner.findings_of, Scanner.process_file.
  destruct (getmtime fs filepath) as [mtime|]; cbn [bind].
  - destruct (read_bytes fs filepath) as [bytes|]; cbn [bind].
    + left. split; [eauto|].
      destruct (read_replace_total bytes) as [content ->].
      now rewrite file_body_appends.
    + right. split; [|reflexivity]. intros [_ [bytes B]]. discriminate B.
  - right. split; [|reflexivity]. intros [[mtime M] _]. discriminate M.
Qed.

Lemma files_loop_spec (paths : list str) (results found : list finding) :
  for_each process_file paths results = Returns found
  <-> Forall (readable fs) paths
      /\ found = results ++ flat_map findings_of paths.
Proof.
  revert results; induction paths as [|p paths IH]; intros results; simpl.
  - rewrite app_nil_r. split.
    + intros H. injection H as <-. split; [constructor | reflexivity].
    + intros [_ ->]. reflexivity.
  - destruct (process_file_cases results p) as [[R ->] | [N ->]]; cbn [bind].
    + rewrite IH, <- app_assoc. split.
      * intros [F E]. split; [now constructor | exact E].
      * intros [F E]. inversion F; subst. split; [assumption | reflexivity].
    + split; [discriminate|]. intros [F _]. inversion F; subst. contradiction.
Qed.

Lemma dirs_loop_spec (dirs : list str) (results found : list finding) :
  for_each (process_dir upper_ext fs) dirs results = Returns found
  <-> Forall (readable fs)
        (flat_map (fun d => glob_glob fs (OsPath.join BASE [d; lit "*.txt"])) dirs)
      /\ found
         = results
           ++ flat_map findings_of
                (flat_map (fun d => glob_glob fs (OsPath.join BASE [d; lit "*.txt"])) dirs).
Proof.
  revert results; induction dirs as [|d dirs IH]; intros results; simpl.
  - rewrite app_nil_r. split.
    + intros H. injection H as <-. split; [constructor | reflexivity].
    + intros [_ ->]. reflexivity.
  - unfold process_dir at 1.
    destruct (for_each process_file _ results) as [mid|] eqn:E; cbn [bind].
    + apply files_loop_spec in E. destruct E as [F ->].
      rewrite IH, flat_map_app, <- app_assoc, Forall_app. tauto.
    + split; [discriminate|]. intros [F _]. apply Forall_app in F.
      destruct F as [F _].
      assert (C : for_each process_file
                    (glob_glob fs (OsPath.join BASE [d; lit "*.txt"])) results
                  = Returns (results ++ flat_map findings_of
                               (glob_glob fs (OsPath.join BASE [d; lit "*.txt"]))))
        by now apply files_loop_spec.
      congruence.
Qed.

(** The two loops return exactly when every file the globs match can be
    read, and [results] then holds the entries of the visited files in the
    order of the visit. *)
Lemma scan_spec (results : list finding) :
  scan upper_ext fs = Returns results
  <-> Forall (readable fs) (visited fs)
      /\ results = flat_map findings_of (visited fs).
Proof.
  unfold scan, visited. now rewrite dirs_loop_spec.
Qed.

(** C9: bytes that are no UTF-8 do not stop the scanner. A file that can
    be opened is classified from the text read with [errors="replace"], and
    that text is this: text encoded as UTF-8 is read as it is and reading
    goes on after it; at an undecodable sequence (the longest run of bytes
    that begins an encoding but is cut short or wrongly continued, or a
    single byte that begins none), where strict decoding raises, the one
    character U+FFFD is put and reading goes on with the byte after the
    sequence. So what stands before and after the undecodable bytes is kept,
    and no exception comes from decoding. *)
Theorem undecodable_bytes_replaced
        (results : list finding) (filepath : str) (mtime : Q)
        (bytes : list Byte.byte) :
  getmtime fs filepath = Returns mtime ->
  read_bytes fs filepath = Returns bytes ->
  process_file results filepath
  = Returns (file_body results mtime filepath
               (Utf8.universal_newlines (lossy (map Byte.to_N bytes))))
  /\ lossy [] = []
  /\ (forall s rest,
        Forall scalar s -> lossy (encode_all s ++ rest) = s ++ lossy rest)
  /\ (forall bad next,
        undecodable bad next -> lossy (bad ++ next) = 0xFFFD :: lossy next)
  /\ (forall s bad next,
        Forall scalar s -> undecodable bad next ->
        map Byte.to_N bytes = encode_all s ++ bad ++ next ->
        Utf8.decode Utf8.Strict bytes = Utf8.UnicodeDecodeError
        /\ lossy (map Byte.to_N bytes) = s ++ 0xFFFD :: lossy next).
Proof.
  intros M B. split.
  - unfold Scanner.process_file. rewrite M, B. cbn [bind].
    now rewrite read_replace_lossy.
  - split; [reflexivity|]. split; [exact lossy_encode_all|].
    split; [intros bad next U; exact (proj1 (lossy_undecodable bad next U))|].
    intros s bad next S U E. unfold Utf8.decode. rewrite E.
    split; [now apply strict_raises | now apply lossy_replaces].
Qed.

End Host.

Import Samples.

Lemma undecodable_bytes_replaced_witness :
  Scanner.process_file plain_upper sample_fs [] wizard_path
  = Returns [(1767000200.5%Q, wizard_path, lit "has 2 PENDING issue(s)")]
  /\ lossy (map Byte.to_N
              (ascii_bytes (unlines [lit "== ISSUE REVIEW =="] ++ lit "- Issue 1: caf")
               ++ Byte.xe9
                  :: ascii_bytes
                       (unlines [lit " - pending"; lit "- Issue 2: x - pending"])))
     = (unlines [lit "== ISSUE REVIEW =="] ++ lit "- Issue 1: caf")
       ++ 0xFFFD :: unlines [lit " - pending"; lit "- Issue 2: x - pending"].
Proof.
  destruct (undecodable_bytes_replaced plain_upper sample_fs [] wizard_path
              1767000200.5%Q
              (ascii_bytes (unlines [lit "== ISSUE REVIEW =="] ++ lit "- Issue 1: caf")
               ++ Byte.xe9
                  :: ascii_bytes
                       (unlines [lit " - pending"; lit "- Issue 2: x - pending"])))
    as (P & _ & _ & _ & T).
  - reflexivity.
  - reflexivity.
  - split; [rewrite P; vm_compute; reflexivity|].
    destruct (T (unlines [lit "== ISSUE REVIEW =="] ++ lit "- Issue 1: caf")
                [0xE9]
                (map Byte.to_N
                   (ascii_bytes
                      (unlines [lit " - pending"; lit "- Issue 2: x - pending"]))))
      as [_ L].
    + apply Forall_forall. intros c C.
      assert (A : forallb (fun c => c <? 0x80)
                    (unlines [lit "== ISSUE REVIEW =="] ++ lit "- Issue 1: caf")
                  = true) by (vm_compute; reflexivity).
      rewrite forallb_forall in A. apply A, N.ltb_lt in C.
      unfold scalar. lia.
    + apply (lone_lead_undecodable 0xE9 0x20); lia.
    + vm_compute. reflexivity.
    + rewrite L. vm_compute. reflexivity.
Defined.

End ScanFacts.

(** ** The sort *)

Module SortFacts.
Import PyStr Scanner.

Lemma insert_desc_perm (x : finding) (l : list finding) :
  Permutation (x :: l) (insert_desc x l).
Proof.
  induction l as [|y l IH]; simpl.
  - apply Permutation_refl.
  - destruct (Qle_bool (key y) (key x)).
    + apply Permutation_refl.
    + eapply Permutation_trans; [apply perm_swap|]. now apply perm_skip.
Qed.

Lemma sort_desc_perm (l : list finding) : Permutation l (sort_desc l).
Proof.
  induction l as [|x l IH]; simpl.
  - constructor.
  - eapply Permutation_trans; [apply perm_skip, IH | apply insert_desc_perm].
Qed.

Lemma sort_desc_length (l : list finding) : length (sort_desc l) = length l.
Proof.
  symmetry. apply Permutation_length, sort_desc_perm.
Qed.

Lemma insert_desc_sorted (x : finding) (l : list finding) :
  StronglySorted not_older l -> StronglySorted not_older (insert_desc x l).
Proof.
  induction 1 as [|y l S IH F]; simpl.
  - repeat constructor.
  - destruct (Qle_bool (key y) (key x)) eqn:E.
    + apply Qle_bool_iff in E. constructor; [now constructor|].
      constructor; [exact E|].
      eapply Forall_impl; [|exact F]. unfold not_older. intros z Z.
      eapply Qle_trans; eassumption.
    + assert (L : (key x <= key y)%Q).
      { apply Qlt_le_weak, Qnot_le_lt. intros C.
        apply Qle_bool_iff in C. congruence. }
      constructor; [exact IH|].
      apply Forall_forall. intros z Z.
      apply (Permutation_in _ (Permutation_sym (insert_desc_perm x l))) in Z.
      destruct Z as [<- | Z]; [exact L|].
      rewrite Forall_forall in F. now apply F.
Qed.

Lemma sort_desc_sorted (l : list finding) : StronglySorted not_older (sort_desc l).
Proof.
  induction l as [|x l IH]; simpl; [constructor | now apply insert_desc_sorted].
Qed.

(** In a sorted list an entry at a smaller index is not older. *)
Lemma sorted_nth (l : list finding) (i j : nat) (a b : finding) :
  StronglySorted not_older l ->
  nth_error l i = Some a -> nth_error l j = Some b -> (i < j)%nat ->
  not_older a b.
Proof.
  intros S; revert i j; induction S as [|y l S IH F]; intros i j A B L.
  - destruct i; discriminate.
  - destruct j as [|j]; [lia|]. destruct i as [|i]; simpl in A, B.
    + injection A as ->. rewrite Forall_forall in F.
      apply F. eapply nth_error_In; eassumption.
    + apply (IH i j); [assumption | assumption | lia].
Qed.

(** Inserting leaves the order among the entries of one time as it was. *)
Lemma at_time_insert_desc (t : Q) (x : finding) (l : list finding) :
  at_time t (insert_desc x l) = at_time t (x :: l).
Proof.
  unfold at_time. induction l as [|y l IH]; simpl; [reflexivity|].
  destruct (Qle_bool (key y) (key x)) eqn:E; [reflexivity|].
  cbn [filter]. rewrite IH. cbn [filter].
  destruct (Qeq_bool (key x) t) eqn:X; [|reflexivity].
  destruct (Qeq_bool (key y) t) eqn:Y; [|reflexivity].
  exfalso. apply Qeq_bool_iff in X, Y.
  assert (C : Qle_bool (key y) (key x) = true).
  { apply Qle_bool_iff. rewrite X, Y. apply Qle_refl. }
  congruence.
Qed.

Lemma at_time_sort_desc (t : Q) (l : list finding) :
  at_time t (sort_desc l) = at_time t l.
Proof.
  induction l as [|x l IH]; simpl; [reflexivity|].
  rewrite at_time_insert_desc. unfold at_time in *. cbn [filter]. now rewrite IH.
Qed.

End SortFacts.

(** ** The report *)

Module ReportFacts.
Import PyStr Scanner ScanFacts SortFacts.

(** Numbers below [10^w] fill a [strftime] field of [w] digits exactly. *)
Lemma zfill_digits_upto (w : nat) (bound : nat) (n : N) :
  forallb (fun k => digits w (zfill w (N.of_nat k))) (seq 0 bound) = true ->
  (N.to_nat n < bound)%nat ->
  digits w (zfill w n) = true.
Proof.
  intros A B. rewrite forallb_forall in A.
  specialize (A (N.to_nat n)). rewrite N2Nat.id in A.
  apply A, in_seq. lia.
Qed.

Lemma zfill_2_digits (n : N) : n <= 99 -> digits 2 (zfill 2 n) = true.
Proof.
  intros B. apply (zfill_digits_upto 2 100); [vm_compute; reflexivity | lia].
Qed.

Lemma zfill_4_digits (n : N) : n <= 9999 -> digits 4 (zfill 4 n) = true.
Proof.
  intros B. apply (zfill_digits_upto 4 (100 * 100)); [vm_compute; reflexivity | lia].
Qed.

Lemma digits_length (w : nat) (s : str) : digits w s = true -> length s = w.
Proof.
  unfold digits. intros H. apply andb_true_iff in H. now apply Nat.eqb_eq.
Qed.

Lemma ljust_length (w : nat) (s : str) : length (ljust w s) = Nat.max w (length s).
Proof.
  unfold ljust. rewrite length_app, repeat_length. lia.
Qed.

(** A year of four digits is printed with its four digits. *)
Lemma year_4_digits (n : N) : 1000 <= n <= 9999 -> digits 4 (zfill 1 n) = true.
Proof.
  intros B.
  assert (A : forallb (fun k => digits 4 (zfill 1 (N.of_nat k))) (seq (10 * 100) (90 * 100))
              = true) by (vm_compute; reflexivity).
  rewrite forallb_forall in A.
  specialize (A (N.to_nat n)). rewrite N2Nat.id in A.
  apply A, in_seq. lia.
Qed.

Section Host.
Variable upper_ext : char -> str.
Variable fromtimestamp : Q -> outcome Datetime.datetime.
Variable stdout_accepts : str -> bool.

Local Abbreviation scan := (scan upper_ext).
Local Abbreviation main := (main upper_ext fromtimestamp stdout_accepts).
Local Abbreviation report := (report fromtimestamp stdout_accepts).
Local Abbreviation report_loop := (report_loop fromtimestamp stdout_accepts).
Local Abbreviation print := (print stdout_accepts).
Local Abbreviation report_line := (report_line fromtimestamp).
Local Abbreviation findings_of := (findings_of upper_ext).

Lemma strftime_ymd_hm (dt : Datetime.datetime) :
  Datetime.strftime dt (lit "%Y-%m-%d %H:%M")
  = zfill 1 (Datetime.year dt) ++ lit "-" ++ zfill 2 (Datetime.month dt) ++ lit "-"
    ++ zfill 2 (Datetime.day dt) ++ lit " " ++ zfill 2 (Datetime.hour dt) ++ lit ":"
    ++ zfill 2 (Datetime.minute dt).
Proof.
  cbv [Datetime.strftime lit String.list_ascii_of_string map N_of_ascii N_of_digits
       N.eqb Pos.eqb Datetime.directive N.add N.mul Pos.add Pos.mul Pos.succ].
  cbn [app]. now rewrite app_nil_r.
Qed.

(** Once the two loops have returned, the run is the report of the sorted
    entries. *)
Lemma main_after_scan (fs : filesystem) (results : list finding) :
  scan fs = Returns results -> main fs = report (sort_desc results).
Proof.
  intros S. unfold Scanner.main. now rewrite S.
Qed.


(** C3, as the script has it: for a modification time the host converts to
    a local date of the years 1000 to 9999, the line of an entry is two
    spaces, the four digits of the year, two of the month and two of the day
    joined by hyphens, a space, two digits of hour, a colon and two of
    minute; two spaces; the path relative to [BASE], followed by spaces up to
    35 columns when it is shorter and in full when it is longer; two spaces;
    the reason. *)
Theorem report_line_layout (mtime : Q) (filepath reason : str)
        (dt : Datetime.datetime) :
  fromtimestamp mtime = Returns dt ->
  Datetime.valid dt ->
  1000 <= Datetime.year dt ->
  let rel := OsPath.relpath filepath BASE in
  let Y := zfill 1 (Datetime.year dt) in
  let m := zfill 2 (Datetime.month dt) in
  let d := zfill 2 (Datetime.day dt) in
  let H := zfill 2 (Datetime.hour dt) in
  let M := zfill 2 (Datetime.minute dt) in
  report_line (mtime, filepath, reason)
  = Returns
      (lit "  " ++ (Y ++ lit "-" ++ m ++ lit "-" ++ d ++ lit " " ++ H ++ lit ":" ++ M)
       ++ lit "  " ++ (rel ++ repeat 0x20 (35 - length rel)) ++ lit "  " ++ reason)
  /\ digits 4 Y = true /\ digits 2 m = true /\ digits 2 d = true
  /\ digits 2 H = true /\ digits 2 M = true
  /\ length (rel ++ repeat 0x20 (35 - length rel)) = Nat.max 35 (length rel).
Proof.
  intros T (Vy & Vm & Vd & Vh & VM & _) Y1000 rel Y m d H M.
  split; [|repeat split].
  - unfold Scanner.report_line. rewrite T. cbn [bind].
    rewrite strftime_ymd_hm. reflexivity.
  - apply year_4_digits. lia.
  - apply zfill_2_digits. lia.
  - apply zfill_2_digits. lia.
  - apply zfill_2_digits. lia.
  - apply zfill_2_digits. lia.
  - apply (ljust_length 35 rel).
Qed.

(** C5: when the two loops return, the entries of the report are those of
    the scan (whatever directory each came from), permuted so that no entry
    is older than one after it; of two entries the one modified later stands
    first. *)
Theorem report_newest_first (fs : filesystem) (results : list finding) :
  scan fs = Returns results ->
  results = flat_map (findings_of fs) (visited fs)
  /\ main fs = report (sort_desc results)
  /\ Permutation results (sort_desc results)
  /\ StronglySorted not_older (sort_desc results)
  /\ forall i j x y,
      nth_error (sort_desc results) i = Some x ->
      nth_error (sort_desc results) j = Some y ->
      (key y < key x)%Q -> (i < j)%nat.
Proof.
  intros S.
  split; [now apply (scan_spec upper_ext fs) in S|].
  split; [now apply main_after_scan|]. split; [apply sort_desc_perm|].
  split; [apply sort_desc_sorted|].
  intros i j x y X Y L.
  destruct (Nat.lt_trichotomy i j) as [C | [C | C]]; [exact C | |]; exfalso.
  - subst j. rewrite X in Y. injection Y as ->. exact (Qlt_irrefl _ L).
  - pose proof (sorted_nth _ _ _ _ _ (sort_desc_sorted _) Y X C) as O.
    unfold not_older in O. exact (Qlt_not_le _ _ L O).
Qed.

(** C10: when the two loops return, the entries modified at one and the
    same time stand in the report in the order the scan found them: the
    files of "reviews" before those of "ux-tests", and within a directory in
    the order of its listing. *)
Theorem equal_times_keep_scan_order (fs : filesystem) (results : list finding) :
  scan fs = Returns results ->
  results
  = flat_map (findings_of fs)
      (glob_glob fs (lit "/home/artur/keep.ai/reviews/*.txt")
       ++ glob_glob fs (lit "/home/artur/keep.ai/ux-tests/*.txt"))
  /\ main fs = report (sort_desc results)
  /\ forall t, at_time t (sort_desc results) = at_time t results.
Proof.
  intros S. split.
  - apply (scan_spec upper_ext fs) in S. destruct S as [_ ->].
    unfold visited. cbn [DIRS flat_map]. now rewrite app_nil_r.
  - split; [now apply main_after_scan|]. intros t. apply at_time_sort_desc.
Qed.


End Host.

Import Samples MoreSamples.

Lemma report_line_layout_witness :
  Scanner.report_line fixed_clock (0%Q, login_path, lit "MISSING ISSUE REVIEW section")
  = Returns
      (lit "  2026-01-15 09:05  reviews/2026-01-15-login.txt         MISSING ISSUE REVIEW section").
Proof.
  destruct (report_line_layout fixed_clock 0 login_path
              (lit "MISSING ISSUE REVIEW section")
              {| Datetime.year := 2026; Datetime.month := 1; Datetime.day := 15;
                 Datetime.hour := 9; Datetime.minute := 5; Datetime.second := 0 |})
    as [E _].
  - reflexivity.
  - unfold Datetime.valid. simpl. lia.
  - simpl. lia.
  - rewrite E. reflexivity.
Defined.

(** C3, as the specification words it, fails: a path longer than 35 columns
    is printed in full, not cut to the column width. *)
Lemma long_path_not_truncated :
  Scanner.report_line fixed_clock (0%Q, long_path, lit "MISSING ISSUE REVIEW section")
  <> spec_report_line fixed_clock (0%Q, long_path, lit "MISSING ISSUE REVIEW section").
Proof.
  intros E.
  assert (L : forall a b : str, Returns a = Returns b -> length a = length b)
    by (intros a b H; now injection H as ->).
  apply L in E. vm_compute in E. discriminate E.
Qed.

Lemma report_newest_first_witness :
  Scanner.main plain_upper fixed_clock any_text sample_fs
  = Scanner.report fixed_clock any_text (sort_desc sample_results)
  /\ StronglySorted not_older (sort_desc sample_results).
Proof.
  destruct (report_newest_first plain_upper fixed_clock any_text sample_fs
              sample_results) as (_ & M & _ & S & _).
  - vm_compute. reflexivity.
  - split; assumption.
Defined.

Lemma equal_times_keep_scan_order_witness :
  Scanner.main plain_upper fixed_clock any_text tied_fs
  = Scanner.report fixed_clock any_text (sort_desc tied_results)
  /\ at_time 1767000100%Q (sort_desc tied_results) = tied_results.
Proof.
  destruct (equal_times_keep_scan_order plain_upper fixed_clock any_text tied_fs
              tied_results) as (_ & M & A).
  - vm_compute. reflexivity.
  - split; [exact M|]. rewrite A. vm_compute. reflexivity.
Defined.



End ReportFacts.

(** ** Whole runs *)

Module RunExamples.
Import PyStr Scanner Samples.

(** The three files of [sample_fs] are all reported, newest first; the
    undecodable byte of the newest does not stop the run. *)
Example run_sample_fs :
  main plain_upper fixed_clock any_text sample_fs
  = (unlines
       [lit "Found 3 file(s) needing attention:";
        [];
        lit "  2026-01-15 09:05  ux-tests/wizard.txt                  has 2 PENDING issue(s)";
        lit "  2026-01-15 09:05  reviews/draft.txt                    MISSING ISSUE REVIEW section";
        lit "  2026-01-15 09:05  reviews/2026-01-15-login.txt         has 1 PENDING issue(s)"],
     Returns tt).
Proof. vm_compute. reflexivity. Qed.

(** No file matches: the output is the one line. *)
Example run_empty_fs :
  main plain_upper fixed_clock any_text empty_fs
  = (unlines [lit "All review files are fully handled!"], Returns tt).
Proof. vm_compute. reflexivity. Qed.

(** A matched path that cannot be read: the exception ends the run before
    anything is printed. *)
Example run_unreadable_fs :
  main plain_upper fixed_clock any_text unreadable_fs = ([], Raises).
Proof. vm_compute. reflexivity. Qed.

(** A modification time the host cannot convert: the header is printed, then
    the exception ends the run before the first line. *)
Example run_no_clock :
  main plain_upper no_clock any_text sample_fs
  = (unlines [lit "Found 3 file(s) needing attention:"; []], Raises).
Proof. vm_compute. reflexivity. Qed.

End RunExamples.

(** ** Stripping *)

Module StripFacts.
Import PyStr.

Section Class.
Variable p : char -> bool.

Lemma lstrip_by_all (a s : str) :
  Forall (fun c => p c = true) a -> lstrip_by p (a ++ s) = lstrip_by p s.
Proof.
  induction 1 as [|c a C _ IH]; simpl; [reflexivity | now rewrite C].
Qed.

Lemma lstrip_by_nil (s : str) :
  lstrip_by p s = [] -> Forall (fun c => p c = true) s.
Proof.
  induction s as [|c s IH]; simpl; [constructor|].
  destruct (p c) eqn:C; [|discriminate]. intros H. constructor; auto.
Qed.

Lemma lstrip_by_head (s : str) (y : char) (r : str) :
  lstrip_by p s = y :: r -> p y = false.
Proof.
  induction s as [|c s IH]; simpl; [discriminate|].
  destruct (p c) eqn:C; [exact IH|]. intros H. injection H as <- _. exact C.
Qed.

Lemma lstrip_by_app (s b : str) :
  lstrip_by p s <> [] -> lstrip_by p (s ++ b) = lstrip_by p s ++ b.
Proof.
  induction s as [|c s IH]; simpl; [congruence|].
  destruct (p c); [exact IH | reflexivity].
Qed.

Lemma rstrip_by_all (s b : str) :
  Forall (fun c => p c = true) b -> rstrip_by p (s ++ b) = rstrip_by p s.
Proof.
  intros B. unfold rstrip_by. rewrite rev_app_distr, lstrip_by_all; [reflexivity|].
  now apply Forall_rev.
Qed.

(** A first character outside the class stays where it is. *)
Lemma rstrip_by_cons (x : char) (t : str) :
  p x = false -> rstrip_by p (x :: t) = x :: rstrip_by p t.
Proof.
  intros X. unfold rstrip_by. simpl.
  destruct (lstrip_by p (rev t)) as [|y r] eqn:E.
  - rewrite lstrip_by_all by now apply lstrip_by_nil. simpl. now rewrite X.
  - rewrite lstrip_by_app by congruence. rewrite E, rev_app_distr. reflexivity.
Qed.

Lemma strip_by_cons (x : char) (t : str) :
  p x = false -> strip_by p (x :: t) = x :: rstrip_by p t.
Proof.
  intros X. unfold strip_by. simpl. rewrite X. now apply rstrip_by_cons.
Qed.

(** The last character of a stripped string is outside the class. *)
Lemma rstrip_by_last (s t : str) (y : char) :
  rstrip_by p s = t ++ [y] -> p y = false.
Proof.
  unfold rstrip_by. intros H. apply (f_equal (@rev char)) in H.
  rewrite rev_involutive, rev_app_distr in H. simpl in H.
  exact (lstrip_by_head _ _ _ H).
Qed.

(** Characters of the class around a string do not change what is left. *)
Lemma strip_by_padded (a s b : str) :
  Forall (fun c => p c = true) a -> Forall (fun c => p c = true) b ->
  strip_by p (a ++ s ++ b) = strip_by p s.
Proof.
  intros A B. unfold strip_by. rewrite lstrip_by_all by assumption.
  destruct (lstrip_by p s) as [|y r] eqn:E.
  - rewrite lstrip_by_all by now apply lstrip_by_nil.
    assert (N : lstrip_by p b = []).
    { rewrite <- (app_nil_r b). now rewrite lstrip_by_all. }
    now rewrite N.
  - rewrite lstrip_by_app by congruence. rewrite E. now apply rstrip_by_all.
Qed.

End Class.

End StripFacts.

(** ** The two tests on a line *)

Module LineFacts.
Import PyStr Scanner Terms PyStrFacts PendingFacts StripFacts.

Lemma strip_no_trailing_space (line t w : str) :
  strip line = t ++ w -> all_space w -> w = [].
Proof.
  intros E W. destruct w as [|y w' _] using rev_ind; [reflexivity|]. exfalso.
  apply Forall_app in W. destruct W as [_ W]. inversion W as [|? ? Y _]; subst.
  rewrite app_assoc in E. unfold strip, strip_by in E.
  apply rstrip_by_last in E. congruence.
Qed.

(** The hyphen of the pattern stands after the prefix. *)
Lemma hyphen_after_prefix (rest pre w tail : str) :
  lit "- Issue" ++ rest = pre ++ 0x2D :: w ++ lit "pending" ++ tail ->
  all_space w ->
  exists mid, pre = lit "- Issue" ++ mid.
Proof.
  intros E W.
  destruct pre as [|c0 pre].
  { exfalso. injection E as E.
    destruct w as [|x w]; [discriminate E|]. injection E as <- E.
    destruct w as [|x w]; [discriminate E|]. injection E as <- E.
    inversion W as [|? ? _ W']; subst. inversion W' as [|? ? X _]; subst.
    discriminate X. }
  injection E as <- E.
  do 6 (destruct pre as [|? pre]; [discriminate E | injection E as <- E]).
  now exists pre.
Qed.

(** X1: the test looks at the stripped line only, and the stripped line has
    no whitespace at its end, so the trailing [\s*] of the pattern never
    takes a character; nor can the hyphen of the pattern be the one of the
    prefix. A line is counted exactly when its stripped form is "- Issue",
    any text, a hyphen, optional whitespace and the word pending. *)
Theorem pending_line_shape (line : str) :
  is_pending line = true <->
  exists mid w,
    strip line = lit "- Issue" ++ mid ++ 0x2D :: w ++ lit "pending" /\ all_space w.
Proof.
  rewrite is_pending_spec. split.
  - intros [[rest P] (pre & w1 & w2 & E & W1 & W2)].
    assert (w2 = []) as ->.
    { apply (strip_no_trailing_space line (pre ++ 0x2D :: w1 ++ lit "pending"));
        [|assumption].
      rewrite E. rewrite <- app_assoc. simpl. now rewrite <- app_assoc. }
    rewrite P in E. destruct (hyphen_after_prefix _ _ _ _ E W1) as [mid ->].
    exists mid, w1. split; [|assumption].
    rewrite P, E, app_nil_r, <- app_assoc. reflexivity.
  - intros (mid & w & E & W). split.
    + exists (mid ++ 0x2D :: w ++ lit "pending"). exact E.
    + exists (lit "- Issue" ++ mid), w, []. split; [|split; [assumption | constructor]].
      rewrite E, app_nil_r, <- app_assoc. reflexivity.
Qed.

Section Host.
Variable upper_ext : char -> str.

Local Abbreviation is_heading := (is_heading upper_ext).

(** X2: whitespace before and after a line changes neither test. *)
Theorem surrounding_space_ignored (a line b : str) :
  all_space a -> all_space b ->
  is_heading (a ++ line ++ b) = is_heading line
  /\ is_pending (a ++ line ++ b) = is_pending line.
Proof.
  intros A B.
  assert (S : strip (a ++ line ++ b) = strip line)
    by now apply strip_by_padded.
  unfold Scanner.is_heading, is_pending. now rewrite S.
Qed.

(** X3: a heading is never a pending line, so the heading at the head of
    [review_lines] adds nothing to the count: the count is that of the lines
    after the heading, and at most their number. *)
Theorem heading_is_not_pending (line : str) (post : list str) :
  is_heading line = true ->
  is_pending line = false
  /\ count_pending (line :: post) = count_pending post
  /\ (count_pending (line :: post) <= length post)%nat.
Proof.
  intros H.
  assert (P : is_pending line = false).
  { destruct (is_pending line) eqn:P; [exfalso | reflexivity].
    apply is_pending_spec in P. destruct P as [[rest P] _].
    unfold Scanner.is_heading in H. rewrite P in H.
    change (lit "- Issue" ++ rest) with (0x2D :: (lit " Issue" ++ rest)) in H.
    unfold strip_chars in H. rewrite strip_by_cons in H by reflexivity.
    unfold strip in H. rewrite strip_by_cons in H by reflexivity.
    apply FileFacts.eqb_str_eq in H. discriminate H. }
  split; [exact P|].
  rewrite !count_pending_filter. simpl. rewrite P.
  split; [reflexivity | apply filter_length_le].
Qed.

End Host.

Import Samples MoreSamples.

Lemma surrounding_space_ignored_witness :
  is_heading plain_upper (lit "  " ++ lit "== issue review ==" ++ [0x09])
  = is_heading plain_upper (lit "== issue review ==")
  /\ is_pending (lit "  " ++ lit "== issue review ==" ++ [0x09])
     = is_pending (lit "== issue review ==").
Proof.
  apply (surrounding_space_ignored plain_upper (lit "  ") (lit "== issue review ==") [0x09]);
    repeat constructor.
Defined.

Lemma heading_is_not_pending_witness :
  is_pending (lit "=== ISSUE REVIEW ===") = false
  /\ count_pending [lit "=== ISSUE REVIEW ==="; lit "- Issue 1: foo - pending"]
     = count_pending [lit "- Issue 1: foo - pending"]
  /\ (count_pending [lit "=== ISSUE REVIEW ==="; lit "- Issue 1: foo - pending"]
      <= 1)%nat.
Proof.
  apply (heading_is_not_pending plain_upper (lit "=== ISSUE REVIEW ===")
           [lit "- Issue 1: foo - pending"]).
  reflexivity.
Defined.

End LineFacts.

(** ** Decorated headings *)

Module HeadingShape.
Import PyStr Scanner Terms StripFacts.

Section Class.
Variable p : char -> bool.

Lemma lstrip_by_core (a core b : str) :
  starts_out p core -> lstrip_by p (a ++ core ++ b) = lstrip_by p a ++ core ++ b.
Proof.
  intros (x & t & -> & X). induction a as [|c a IH]; simpl.
  - now rewrite X.
  - destruct (p c); [exact IH | reflexivity].
Qed.

Lemma rstrip_by_core (a core b : str) :
  ends_out p core -> rstrip_by p (a ++ core ++ b) = a ++ core ++ rstrip_by p b.
Proof.
  intros (t & y & -> & Y). unfold rstrip_by.
  rewrite !rev_app_distr. simpl. rewrite <- !app_assoc.
  rewrite (lstrip_by_core (rev b) ((y :: rev t)) (rev a)); [|now exists y, (rev t)].
  rewrite !rev_app_distr, rev_involutive. simpl.
  rewrite rev_involutive. now rewrite <- !app_assoc.
Qed.

Lemma strip_by_core (a core b : str) :
  starts_out p core -> ends_out p core ->
  strip_by p (a ++ core ++ b) = lstrip_by p a ++ core ++ rstrip_by p b.
Proof.
  intros S E. unfold strip_by. rewrite lstrip_by_core by assumption.
  now apply rstrip_by_core.
Qed.

Lemma lstrip_by_all_nil (a : str) :
  Forall (fun c => p c = true) a -> lstrip_by p a = [].
Proof.
  intros A. rewrite <- (app_nil_r a). now rewrite lstrip_by_all.
Qed.

(** What is left of a run is a run. *)
Lemma lstrip_by_keeps_class (q : char -> bool) (a : str) :
  Forall (fun c => p c = true) a -> Forall (fun c => p c = true) (lstrip_by q a).
Proof.
  induction 1 as [|c a C A IH]; simpl; [constructor|].
  destruct (q c); [exact IH | now constructor].
Qed.

End Class.

Lemma space_is_no_eq_sign (w : str) :
  all_space w -> Forall (fun c => is_eq_sign c = false) w.
Proof.
  apply Forall_impl. intros c C. unfold is_eq_sign. simpl.
  destruct (c =? 0x3D) eqn:E; [|reflexivity].
  apply N.eqb_eq in E. subst c. discriminate C.
Qed.

Lemma eq_signs (n : nat) : Forall (fun c => is_eq_sign c = true) (repeat 0x3D n).
Proof.
  apply Forall_forall. intros c C. apply repeat_spec in C. now subst c.
Qed.

(** On the left of the text, the three strips take a run of whitespace, a
    run of "=" and a run of whitespace. *)
Lemma left_peel (w1 w2 : str) (n : nat) :
  all_space w1 -> all_space w2 ->
  lstrip_by isspace (lstrip_by is_eq_sign (lstrip_by isspace (w1 ++ repeat 0x3D n ++ w2)))
  = [].
Proof.
  intros W1 W2. rewrite lstrip_by_all by exact W1.
  destruct n as [|n].
  - simpl. rewrite (lstrip_by_all_nil isspace w2 W2). reflexivity.
  - change (lstrip_by isspace (repeat 0x3D (S n) ++ w2)) with (repeat 0x3D (S n) ++ w2).
    rewrite lstrip_by_all by apply eq_signs.
    apply lstrip_by_all_nil, lstrip_by_keeps_class, W2.
Qed.

Lemma right_peel (w3 w4 : str) (m : nat) :
  all_space w3 -> all_space w4 ->
  rstrip_by isspace (rstrip_by is_eq_sign (rstrip_by isspace (w3 ++ repeat 0x3D m ++ w4)))
  = [].
Proof.
  intros W3 W4. unfold rstrip_by. rewrite !rev_involutive.
  rewrite !rev_app_distr, rev_repeat, <- app_assoc.
  rewrite left_peel; [reflexivity | now apply Forall_rev | now apply Forall_rev].
Qed.

(** A character that upper-cases to a capital letter is neither whitespace
    nor "=". *)
Lemma capital_is_clean (x u : char) :
  upper_ascii x = u -> 0x41 <= u <= 0x5A ->
  isspace x = false /\ is_eq_sign x = false.
Proof.
  unfold upper_ascii. intros U R.
  assert (B : 0x41 <= x <= 0x7A).
  { destruct ((0x61 <=? x) && (x <=? 0x7A)) eqn:C.
    - apply andb_true_iff in C. rewrite !N.leb_le in C. lia.
    - lia. }
  clear U R. split.
  - destruct (isspace x) eqn:E; [exfalso | reflexivity].
    unfold isspace in E.
    rewrite !orb_true_iff, !andb_true_iff, !N.leb_le, !N.eqb_eq in E. lia.
  - unfold is_eq_sign. simpl. destruct (N.eqb_spec x 0x3D); [lia | reflexivity].
Qed.

Lemma heading_text_clean (core : str) :
  map upper_ascii core = lit "ISSUE REVIEW" ->
  (starts_out isspace core /\ ends_out isspace core)
  /\ (starts_out is_eq_sign core /\ ends_out is_eq_sign core).
Proof.
  intros H.
  assert (S : exists x t, core = x :: t /\ upper_ascii x = 0x49).
  { destruct core as [|x t]; [discriminate H|]. injection H as X _. now exists x, t. }
  assert (E : exists t y, core = t ++ [y] /\ upper_ascii y = 0x57).
  { apply (f_equal (@rev char)) in H. rewrite <- map_rev in H.
    destruct (rev core) as [|y r] eqn:R; [discriminate H|]. injection H as Y _.
    exists (rev r), y. split; [|exact Y].
    rewrite <- (rev_involutive core), R. reflexivity. }
  destruct S as (x & t & -> & X). destruct E as (t' & y & E & Y).
  destruct (capital_is_clean x _ X) as [X1 X2]; [lia|].
  destruct (capital_is_clean y _ Y) as [Y1 Y2]; [lia|].
  repeat split; try (now exists x, t); now exists t', y.
Qed.

Section Host.
Variable upper_ext : char -> str.

Lemma upper_of_ascii (s t : str) :
  map upper_ascii s = t -> Forall (fun c => c < 0x80) t -> upper upper_ext s = t.
Proof.
  revert t; induction s as [|c s IH]; intros t <- F; simpl; [reflexivity|].
  inversion F as [|? ? C F']; subst.
  assert (A : (c <? 0x80) = true).
  { apply N.ltb_lt. revert C. unfold upper_ascii.
    destruct ((0x61 <=? c) && (c <=? 0x7A)) eqn:R; [|trivial].
    apply andb_true_iff in R. rewrite !N.leb_le in R. lia. }
  unfold upper_char. rewrite A. simpl. f_equal. now apply IH.
Qed.

(** X4: "ISSUE REVIEW" in any mix of upper and lower case, with optional
    whitespace around it, an optional run of "=" on either side of that and
    optional whitespace around the whole, is a heading. *)
Theorem decorated_heading (w1 w2 w3 w4 core : str) (n m : nat) :
  all_space w1 -> all_space w2 -> all_space w3 -> all_space w4 ->
  map upper_ascii core = lit "ISSUE REVIEW" ->
  is_heading upper_ext
    (w1 ++ repeat 0x3D n ++ w2 ++ core ++ w3 ++ repeat 0x3D m ++ w4) = true.
Proof.
  intros W1 W2 W3 W4 H.
  destruct (heading_text_clean core H) as [[S1 E1] [S2 E2]].
  replace (w1 ++ repeat 0x3D n ++ w2 ++ core ++ w3 ++ repeat 0x3D m ++ w4)
    with ((w1 ++ repeat 0x3D n ++ w2) ++ core ++ (w3 ++ repeat 0x3D m ++ w4))
    by now rewrite <- !app_assoc.
  unfold Scanner.is_heading, strip, strip_chars. fold is_eq_sign.
  rewrite !strip_by_core by assumption.
  rewrite left_peel, right_peel by assumption.
  rewrite app_nil_r. simpl.
  rewrite (upper_of_ascii core _ H); [reflexivity|].
  repeat (constructor; [reflexivity|]). constructor.
Qed.

End Host.

Import Samples.

Lemma decorated_heading_witness :
  is_heading plain_upper
    (lit "  " ++ repeat 0x3D 2 ++ lit " " ++ lit "Issue Review" ++ lit " "
     ++ repeat 0x3D 3 ++ [0x09]) = true.
Proof.
  apply (decorated_heading plain_upper (lit "  ") (lit " ") (lit " ") [0x09]
           (lit "Issue Review") 2 3);
    try (repeat constructor); reflexivity.
Defined.

End HeadingShape.

(** ** Which files are reported *)

Module ClassifyFacts.
Import PyStr Scanner Terms PendingFacts FileFacts ScanFacts.

Section Host.
Variable upper_ext : char -> str.

Local Abbreviation is_heading := (is_heading upper_ext).
Local Abbreviation find_issue_review_idx := (find_issue_review_idx upper_ext).
Local Abbreviation file_body := (file_body upper_ext).

(** A list of lines has no heading, or it has a last one. *)
Lemma last_heading_split (lines : list str) :
  Forall (fun line => is_heading line = false) lines
  \/ exists pre h post,
      lines = pre ++ h :: post /\ is_heading h = true
      /\ Forall (fun line => is_heading line = false) post.
Proof.
  induction lines as [|l ls [N | (pre & h & post & -> & H & P)]].
  - left. constructor.
  - destruct (is_heading l) eqn:L.
    + right. exists [], l, ls. auto.
    + left. now constructor.
  - right. exists (l :: pre), h, post. auto.
Qed.

Lemma find_no_heading (lines : list str) :
  Forall (fun line => is_heading line = false) lines ->
  find_issue_review_idx lines = None.
Proof.
  intros N. unfold Scanner.find_issue_review_idx.
  now rewrite heading_loop_no_heading.
Qed.

Lemma find_last_heading (pre : list str) (h : str) (post : list str) :
  is_heading h = true -> Forall (fun line => is_heading line = false) post ->
  find_issue_review_idx (pre ++ h :: post) = Some (length pre).
Proof.
  intros H P. unfold Scanner.find_issue_review_idx.
  now rewrite heading_loop_last.
Qed.

(** X5: the heading loop yields no index exactly when no line is a heading,
    and otherwise the index of the last line that is one: the line at the
    index is a heading and no line after it is. *)
Theorem heading_index_spec (lines : list str) :
  (find_issue_review_idx lines = None
   <-> Forall (fun line => is_heading line = false) lines)
  /\ (forall idx,
       find_issue_review_idx lines = Some idx
       <-> exists pre h post,
            lines = pre ++ h :: post /\ length pre = idx
            /\ is_heading h = true
            /\ Forall (fun line => is_heading line = false) post).
Proof.
  destruct (last_heading_split lines) as [N | (pre & h & post & E & H & P)].
  - pose proof (find_no_heading lines N) as F. split.
    + split; auto.
    + intros idx. split.
      * rewrite F. discriminate.
      * intros (pre & h & post & -> & _ & H & _).
        apply Forall_app in N. destruct N as [_ N]. inversion N; congruence.
  - pose proof (find_last_heading pre h post H P) as F. rewrite <- E in F. split.
    + split.
      * rewrite F. discriminate.
      * intros N. rewrite E in N.
        apply Forall_app in N. destruct N as [_ N]. inversion N; congruence.
    + intros idx. split.
      * rewrite F. intros I. injection I as <-. now exists pre, h, post.
      * intros (pre' & h' & post' & E' & <- & H' & P').
        rewrite E'. now apply find_last_heading.
Qed.

Lemma not_self_append (l : list finding) (x : finding) : l ++ [x] <> l.
Proof.
  intros E. apply (f_equal (@length finding)) in E.
  rewrite length_app in E. simpl in E. lia.
Qed.

Lemma file_body_cases (results : list finding) (mtime : Q) (filepath content : str) :
  (file_body results mtime filepath content
   = results ++ [(mtime, filepath, lit "MISSING ISSUE REVIEW section")]
   <-> Forall (fun line => is_heading line = false) (splitlines content))
  /\ (file_body results mtime filepath content = results
      <-> exists idx,
           find_issue_review_idx (splitlines content) = Some idx
           /\ count_pending (skipn idx (splitlines content)) = 0%nat).
Proof.
  destruct (last_heading_split (splitlines content))
    as [N | (pre & h & post & E & H & P)].
  - pose proof (find_no_heading _ N) as F.
    assert (B : file_body results mtime filepath content
                = results ++ [(mtime, filepath, lit "MISSING ISSUE REVIEW section")]).
    { unfold Scanner.file_body. now rewrite F. }
    split; [split; auto|]. rewrite B. split.
    + intros C. now apply not_self_append in C.
    + intros (idx & I & _). congruence.
  - pose proof (find_last_heading pre h post H P) as F. rewrite <- E in F.
    rewrite (file_body_found _ _ _ _ _ _ F). cbv zeta.
    destruct (count_pending (skipn (length pre) (splitlines content))) as [|n] eqn:C;
      cbn [Nat.ltb Nat.leb].
    + split.
      * split.
        -- intros B. symmetry in B. now apply not_self_append in B.
        -- intros N. rewrite E in N.
           apply Forall_app in N. destruct N as [_ N]. inversion N; congruence.
      * split; [|reflexivity]. intros _. exists (length pre). auto.
    + split.
      * split.
        -- intros B. apply app_inv_head in B. discriminate B.
        -- intros N. rewrite E in N.
           apply Forall_app in N. destruct N as [_ N]. inversion N; congruence.
      * split.
        -- intros B. now apply not_self_append in B.
        -- intros (idx & I & Z). rewrite F in I. injection I as <-. congruence.
Qed.

(** X6: a file is reported as missing the section exactly when none of its
    lines is a heading, and it is left out of the report exactly when it has
    a heading and no pending line from the last heading on. *)
Theorem classification (results : list finding) (mtime : Q) (filepath content : str) :
  (file_body results mtime filepath content
   = results ++ [(mtime, filepath, lit "MISSING ISSUE REVIEW section")]
   <-> Forall (fun line => is_heading line = false) (splitlines content))
  /\ (file_body results mtime filepath content = results
      <-> exists idx,
           find_issue_review_idx (splitlines content) = Some idx
           /\ count_pending (skipn idx (splitlines content)) = 0%nat).
Proof.
  exact (file_body_cases results mtime filepath content).
Qed.

Lemma file_body_one_entry (mtime : Q) (filepath content : str) :
  file_body [] mtime filepath content = []
  \/ exists reason,
      file_body [] mtime filepath content = [(mtime, filepath, reason)]
      /\ (reason = lit "MISSING ISSUE REVIEW section"
          \/ exists n, (1 <= n)%nat
               /\ reason = lit "has " ++ str_of_nat n ++ lit " PENDING issue(s)").
Proof.
  unfold Scanner.file_body.
  destruct (find_issue_review_idx _) as [idx|].
  - cbv zeta. destruct (count_pending _) as [|n]; cbn [Nat.ltb Nat.leb]; [now left|].
    right. eexists. split; [reflexivity|]. right. exists (S n). split; [lia | reflexivity].
  - right. eexists. split; [reflexivity|]. now left.
Qed.

(** What a readable file adds is the result of the body on its text. *)
Lemma findings_of_readable (fs : filesystem) (filepath : str) :
  readable fs filepath ->
  exists mtime,
    getmtime fs filepath = Returns mtime
    /\ findings_of upper_ext fs filepath
       = file_body [] mtime filepath (content_of fs filepath).
Proof.
  intros [[mtime M] [bytes B]]. exists mtime. split; [exact M|].
  unfold findings_of, process_file, content_of. rewrite M, B. cbn [bind].
  now destruct (Utf8Facts.read_replace_total bytes) as [content ->].
Qed.

Lemma findings_of_cases (fs : filesystem) (filepath : str) :
  findings_of upper_ext fs filepath = []
  \/ exists mtime reason,
      getmtime fs filepath = Returns mtime
      /\ findings_of upper_ext fs filepath = [(mtime, filepath, reason)]
      /\ (reason = lit "MISSING ISSUE REVIEW section"
          \/ exists n, (1 <= n)%nat
               /\ reason = lit "has " ++ str_of_nat n ++ lit " PENDING issue(s)").
Proof.
  destruct (process_file_cases upper_ext fs [] filepath) as [[R _] | [_ N]].
  - destruct (findings_of_readable fs filepath R) as (mtime & M & ->).
    destruct (file_body_one_entry mtime filepath (content_of fs filepath))
      as [E | (reason & E & F)]; [now left|].
    right. exists mtime, reason. auto.
  - left. unfold findings_of. now rewrite N.
Qed.

(** X7: when the two loops return, every entry of [results] belongs to a
    file the scan visited, carries that file's modification time and one of
    the two reasons (with a count of at least 1), and there are no more
    entries than files visited. *)
Theorem entries_come_from_files (fs : filesystem) (results : list finding) :
  scan upper_ext fs = Returns results ->
  (length results <= length (visited fs))%nat
  /\ Forall (well_formed fs) results.
Proof.
  intros S. apply (scan_spec upper_ext fs) in S. destruct S as [_ ->]. split.
  - induction (visited fs) as [|p ps IH]; simpl; [lia|].
    rewrite length_app.
    destruct (findings_of_cases fs p) as [-> | (m & r & _ & -> & _)]; simpl; lia.
  - apply Forall_forall. intros [[m p] r] I.
    apply in_flat_map in I. destruct I as (q & Q & I).
    destruct (findings_of_cases fs q) as [E | (m' & r' & M & E & R)]; rewrite E in I.
    + destruct I.
    + destruct I as [I | []]. injection I as <- <- <-.
      unfold well_formed. auto.
Qed.

Lemma flat_map_nil {A B : Type} (f : A -> list B) (l : list A) :
  flat_map f l = [] <-> forall a, In a l -> f a = [].
Proof.
  induction l as [|a l IH]; simpl.
  - split; [intros _ a [] | reflexivity].
  - split.
    + intros E. apply app_eq_nil in E. destruct E as [E1 E2].
      intros b [<- | I]; [exact E1 | now apply IH].
    + intros H. rewrite (H a) by now left.
      apply IH. intros b I. apply H. now right.
Qed.

Variable fromtimestamp : Q -> outcome Datetime.datetime.
Variable stdout_accepts : str -> bool.

(** A readable file adds nothing exactly when it has a heading and no
    pending line from the last heading on. *)
Lemma clean_file (fs : filesystem) (filepath : str) :
  readable fs filepath ->
  findings_of upper_ext fs filepath = []
  <-> exists idx,
       find_issue_review_idx (splitlines (content_of fs filepath)) = Some idx
       /\ count_pending (skipn idx (splitlines (content_of fs filepath))) = 0%nat.
Proof.
  intros R. destruct (findings_of_readable fs filepath R) as (mtime & _ & ->).
  exact (proj2 (file_body_cases [] _ _ _)).
Qed.

(** X8: the run prints "All review files are fully handled!" and ends
    without an exception exactly when standard output takes that line and
    every file the globs match can be read, has a heading and has no pending
    line from the last heading on. *)
Theorem all_clear_iff (fs : filesystem) :
  main upper_ext fromtimestamp stdout_accepts fs
  = (lit "All review files are fully handled!" ++ [0x0A], Returns tt)
  <-> stdout_accepts (lit "All review files are fully handled!" ++ [0x0A]) = true
      /\ forall filepath, In filepath (visited fs) ->
           readable fs filepath
           /\ exists idx,
                find_issue_review_idx (splitlines (content_of fs filepath)) = Some idx
                /\ count_pending (skipn idx (splitlines (content_of fs filepath)))
                   = 0%nat.
Proof.
  split.
  - unfold Scanner.main.
    destruct (scan upper_ext fs) as [results|] eqn:S; [|discriminate].
    apply (scan_spec upper_ext fs) in S. destruct S as [R ->].
    pose proof (SortFacts.sort_desc_length
                  (flat_map (findings_of upper_ext fs) (visited fs))) as L.
    destruct (sort_desc _) as [|x l].
    + symmetry in L. apply length_zero_iff_nil in L.
      unfold report, print.
      destruct (stdout_accepts _) eqn:A; [|discriminate]. intros _.
      split; [reflexivity|]. intros filepath I.
      rewrite Forall_forall in R. split; [now apply R|].
      apply clean_file; [now apply R|].
      rewrite flat_map_nil in L. now apply L.
    + unfold report, and_then, print.
      destruct (stdout_accepts _); [|discriminate].
      destruct (report_loop _ _ _) as [out' r]. intros H.
      injection H as H _. discriminate H.
  - intros [A H].
    assert (S : scan upper_ext fs = Returns []).
    { apply (scan_spec upper_ext fs). split.
      - apply Forall_forall. intros filepath I. now apply H.
      - symmetry. apply flat_map_nil. intros filepath I.
        destruct (H filepath I) as [R C]. now apply clean_file. }
    unfold Scanner.main. rewrite S. cbn [sort_desc fold_right report].
    unfold print. now rewrite A.
Qed.

End Host.

Import Samples MoreSamples.

Lemma entries_come_from_files_witness :
  (length sample_results <= length (visited sample_fs))%nat
  /\ Forall (well_formed sample_fs) sample_results.
Proof.
  apply (entries_come_from_files plain_upper sample_fs sample_results).
  vm_compute. reflexivity.
Defined.

End ClassifyFacts.

(** ** The sort is determined *)

Module StableFacts.
Import PyStr Scanner SortFacts.

Lemma at_time_self (x : finding) (l : list finding) :
  In x l -> In x (at_time (key x) l).
Proof.
  intros I. unfold at_time. apply filter_In. split; [exact I|].
  apply Qeq_bool_iff, Qeq_refl.
Qed.

Lemma at_time_in (t : Q) (x : finding) (l : list finding) :
  In x (at_time t l) -> In x l.
Proof.
  unfold at_time. intros I. now apply filter_In in I.
Qed.

Lemma at_time_nil (b : list finding) :
  (forall t, [] = at_time t b) -> b = [].
Proof.
  intros H. destruct b as [|y b]; [reflexivity|]. exfalso.
  pose proof (at_time_self y (y :: b) (or_introl eq_refl)) as I.
  now rewrite <- H in I.
Qed.

(** Two lists ordered newest first that hold, for every time, the same
    entries of that time in the same order are equal. *)
Lemma sorted_stable_unique (a b : list finding) :
  StronglySorted not_older a -> StronglySorted not_older b ->
  (forall t, at_time t a = at_time t b) ->
  a = b.
Proof.
  intros Sa; revert b; induction Sa as [|x a Sa IH Fa]; intros b Sb H.
  - symmetry. now apply at_time_nil.
  - destruct b as [|y b].
    + exfalso. pose proof (at_time_self x (x :: a) (or_introl eq_refl)) as I.
      rewrite H in I. destruct I.
    + inversion Sb as [|? ? Sb' Fb]; subst.
      rewrite Forall_forall in Fa, Fb.
      assert (XY : x = y).
      { pose proof (H (key x)) as Hx. pose proof (H (key y)) as Hy.
        unfold at_time in Hx, Hy. cbn [filter] in Hx, Hy.
        assert (Rx : Qeq_bool (key x) (key x) = true) by apply Qeq_bool_iff, Qeq_refl.
        assert (Ry : Qeq_bool (key y) (key y) = true) by apply Qeq_bool_iff, Qeq_refl.
        rewrite Rx in Hx. rewrite Ry in Hy.
        destruct (Qeq_bool (key y) (key x)) eqn:YX.
        - now injection Hx.
        - exfalso.
          assert (XY : Qeq_bool (key x) (key y) = false).
          { destruct (Qeq_bool (key x) (key y)) eqn:E; [|reflexivity].
            apply Qeq_bool_iff in E. symmetry in E. apply Qeq_bool_iff in E.
            congruence. }
          rewrite XY in Hy.
          assert (Ix : In x b).
          { apply (at_time_in (key x)). unfold at_time. rewrite <- Hx. now left. }
          assert (Iy : In y a).
          { apply (at_time_in (key y)). unfold at_time. rewrite Hy. now left. }
          apply Fb in Ix. apply Fa in Iy. unfold not_older in Ix, Iy.
          assert (E : (key y == key x)%Q) by now apply Qle_antisym.
          apply Qeq_bool_iff in E. congruence. }
      subst y. f_equal. apply IH; [assumption|].
      intros t. specialize (H t). unfold at_time in *. cbn [filter] in H.
      destruct (Qeq_bool (key x) t); [now injection H | exact H].
Qed.

(** X9: the result of the sort is the only arrangement of [results] that is
    ordered newest first and keeps entries of equal time in the order they
    had: any stable sort yields this very list. *)
Theorem stable_sort_unique (results sorted : list finding) :
  StronglySorted not_older sorted ->
  (forall t, at_time t sorted = at_time t results) ->
  sorted = sort_desc results.
Proof.
  intros S H. apply sorted_stable_unique; [exact S | apply sort_desc_sorted|].
  intros t. now rewrite at_time_sort_desc.
Qed.

(** X10: entries already ordered newest first are left as they are. *)
Theorem sorted_results_unchanged (results : list finding) :
  StronglySorted not_older results ->
  sort_desc results = results.
Proof.
  intros S. symmetry.
  apply sorted_stable_unique; [exact S | apply sort_desc_sorted|].
  intros t. now rewrite at_time_sort_desc.
Qed.

Import Samples MoreSamples.

Lemma stable_sort_unique_witness :
  [(3%Q, draft_path, lit "b"); (3%Q, login_path, lit "c"); (1%Q, login_path, lit "a")]
  = sort_desc three_entries.
Proof.
  apply (stable_sort_unique three_entries).
  - repeat constructor; unfold not_older, key, Qle; simpl; lia.
  - intros t. unfold at_time, three_entries. cbn [filter key fst].
    destruct (Qeq_bool 3 t) eqn:A; destruct (Qeq_bool 1 t) eqn:B;
      try reflexivity.
    exfalso. apply Qeq_bool_iff in A, B. rewrite <- B in A. discriminate A.
Defined.

Lemma sorted_results_unchanged_witness :
  sort_desc [(3%Q, draft_path, lit "b"); (1%Q, login_path, lit "a")]
  = [(3%Q, draft_path, lit "b"); (1%Q, login_path, lit "a")].
Proof.
  apply (sorted_results_unchanged
           [(3%Q, draft_path, lit "b"); (1%Q, login_path, lit "a")]).
  repeat constructor; unfold not_older, key, Qle; simpl; lia.
Defined.

End StableFacts.

(** ** Paths *)

Module PathFacts.
Import PyStr Scanner OsPath Terms.

Lemma split_from_no_sep (cur s : str) :
  no_sep s -> split_from cur s = [rev cur ++ s].
Proof.
  intros H; revert cur; induction H as [|c s C _ IH]; intros cur; simpl.
  - now rewrite app_nil_r.
  - rewrite C, IH. simpl. now rewrite <- app_assoc.
Qed.

Lemma split_from_not_nil (cur s : str) : split_from cur s <> [].
Proof.
  revert cur; induction s as [|c s IH]; intros cur; simpl; [discriminate|].
  destruct (c =? sep); [discriminate | apply IH].
Qed.

(** Text without a separator after a path goes to the last component. *)
Lemma split_from_app (cur a s : str) :
  no_sep s ->
  split_from cur (a ++ s)
  = removelast (split_from cur a) ++ [last (split_from cur a) [] ++ s].
Proof.
  intros H; revert cur; induction a as [|c a IH]; intros cur.
  - simpl. now apply split_from_no_sep.
  - cbn [app split_from]. destruct (c =? sep).
    + rewrite IH. pose proof (split_from_not_nil [] a) as N.
      destruct (split_from [] a) as [|x l]; [congruence | reflexivity].
    + apply IH.
Qed.

Lemma join2_plain (path b : str) :
  startswith b [sep] = false -> path <> [] -> endswith_sep path = false ->
  join2 path b = path ++ sep :: b.
Proof.
  intros B P E. unfold join2. rewrite B, E.
  destruct path; [congruence | reflexivity].
Qed.

Lemma norm_step_plain (new_comps : list str) (comp : str) :
  eqb_str comp [] = false -> eqb_str comp (lit ".") = false ->
  eqb_str comp (lit "..") = false ->
  norm_step new_comps comp = new_comps ++ [comp].
Proof.
  intros N0 N1 N2. unfold norm_step. now rewrite N0, N1, N2.
Qed.

Lemma txt_name_facts (stem : str) :
  let name := stem ++ lit ".txt" in
  eqb_str name [] = false /\ eqb_str name (lit ".") = false
  /\ eqb_str name (lit "..") = false.
Proof.
  intros name.
  assert (L : (4 <= length name)%nat).
  { unfold name. rewrite length_app. simpl. lia. }
  repeat split; unfold eqb_str;
    match goal with |- context [list_eq_dec ?d ?a ?b] =>
      destruct (list_eq_dec d a b) as [E|]; [|reflexivity]
    end; rewrite E in L; simpl in L; lia.
Qed.

(** X11: for a file [name] ending in ".txt" in one of the directories of
    [DIRS], the path the file loop gets is [BASE/dir/name], and the path the
    report prints for it is [dir/name]. *)
Theorem relpath_of_scanned_file (d stem : str) :
  In d DIRS -> no_sep stem ->
  let name := stem ++ lit ".txt" in
  join BASE [d; name] = BASE ++ sep :: d ++ sep :: name
  /\ relpath (join BASE [d; name]) BASE = d ++ sep :: name.
Proof.
  intros D S name.
  assert (NS : no_sep name).
  { apply Forall_app. split; [exact S | repeat constructor]. }
  destruct (txt_name_facts stem) as (N0 & N1 & N2). fold name in N0, N1, N2.
  assert (SW : startswith name [sep] = false).
  { destruct NS as [|c s C _]; [reflexivity|]. simpl. now rewrite C. }
  assert (J : forall dir, dir = lit "reviews" \/ dir = lit "ux-tests" ->
            join BASE [dir; name] = (BASE ++ sep :: dir ++ [sep]) ++ name).
  { intros dir [-> | ->]; unfold join; cbn [fold_left].
    - replace (join2 BASE (lit "reviews")) with (BASE ++ sep :: lit "reviews")
        by reflexivity.
      rewrite join2_plain; [|exact SW|discriminate|reflexivity].
      rewrite <- !app_assoc. reflexivity.
    - replace (join2 BASE (lit "ux-tests")) with (BASE ++ sep :: lit "ux-tests")
        by reflexivity.
      rewrite join2_plain; [|exact SW|discriminate|reflexivity].
      rewrite <- !app_assoc. reflexivity. }
  assert (D' : d = lit "reviews" \/ d = lit "ux-tests").
  { destruct D as [<- | [<- | []]]; auto. }
  split.
  - rewrite (J d D'). rewrite <- !app_assoc. simpl. rewrite <- app_assoc. reflexivity.
  - rewrite (J d D'). unfold relpath, comps, split.
    rewrite split_from_app by exact NS.
    rewrite fold_left_app. cbn [fold_left].
    destruct D' as [-> | ->].
    + replace (last (split_from [] (BASE ++ sep :: lit "reviews" ++ [sep])) [] ++ name)
        with name by reflexivity.
      replace (fold_left norm_step
                 (removelast (split_from [] (BASE ++ sep :: lit "reviews" ++ [sep]))) [])
        with [lit "home"; lit "artur"; lit "keep.ai"; lit "reviews"]
        by (vm_compute; reflexivity).
      rewrite norm_step_plain by assumption.
      replace (fold_left norm_step (split_from [] BASE) [])
        with [lit "home"; lit "artur"; lit "keep.ai"] by (vm_compute; reflexivity).
      reflexivity.
    + replace (last (split_from [] (BASE ++ sep :: lit "ux-tests" ++ [sep])) [] ++ name)
        with name by reflexivity.
      replace (fold_left norm_step
                 (removelast (split_from [] (BASE ++ sep :: lit "ux-tests" ++ [sep]))) [])
        with [lit "home"; lit "artur"; lit "keep.ai"; lit "ux-tests"]
        by (vm_compute; reflexivity).
      rewrite norm_step_plain by assumption.
      replace (fold_left norm_step (split_from [] BASE) [])
        with [lit "home"; lit "artur"; lit "keep.ai"] by (vm_compute; reflexivity).
      reflexivity.
Qed.

Lemma relpath_of_scanned_file_witness :
  join BASE [lit "reviews"; lit "login.txt"] = lit "/home/artur/keep.ai/reviews/login.txt"
  /\ relpath (join BASE [lit "reviews"; lit "login.txt"]) BASE = lit "reviews/login.txt".
Proof.
  apply (relpath_of_scanned_file (lit "reviews") (lit "login")).
  - left. reflexivity.
  - repeat constructor.
Defined.

End PathFacts.

(** ** Lines *)

Module SplitFacts.
Import PyStr Utf8 Scanner Terms.

Lemma splitlines_from_cr (cur s : str) :
  splitlines_from cur (0x0D :: s) = rev cur :: splitlines_from [] (after_cr s).
Proof.
  destruct s as [|c s]; [reflexivity|].
  unfold after_cr. destruct (N.eqb_spec c 0x0A) as [->|N]; [reflexivity|].
  cbn [splitlines_from N.eqb Pos.eqb].
  destruct c as [|p]; [reflexivity|].
  do 4 (destruct p as [p|p|]; try reflexivity). congruence.
Qed.

Lemma splitlines_from_break (cur s : str) (c : char) :
  c <> 0x0D -> is_linebreak c = true ->
  splitlines_from cur (c :: s) = rev cur :: splitlines_from [] s.
Proof.
  intros C B. cbn [splitlines_from].
  destruct (N.eqb_spec c 0x0D); [congruence|]. now rewrite B.
Qed.

Lemma splitlines_from_char (cur s : str) (c : char) :
  is_linebreak c = false ->
  splitlines_from cur (c :: s) = splitlines_from (c :: cur) s.
Proof.
  intros B. cbn [splitlines_from].
  destruct (N.eqb_spec c 0x0D) as [->|]; [discriminate B|]. now rewrite B.
Qed.

Lemma after_cr_length (s : str) : (length (after_cr s) <= length s)%nat.
Proof.
  destruct s as [|c s]; simpl; [lia|]. destruct (c =? 0x0A); simpl; lia.
Qed.

Lemma splitlines_from_no_break (n : nat) (s cur : str) :
  (length s <= n)%nat -> no_break cur ->
  Forall no_break (splitlines_from cur s).
Proof.
  revert s cur; induction n as [|n IH]; intros s cur L C.
  - destruct s; [|simpl in L; lia]. simpl.
    destruct cur; repeat constructor.
    apply Forall_rev in C. exact C.
  - destruct s as [|c s].
    + simpl. destruct cur; repeat constructor. apply Forall_rev in C. exact C.
    + simpl in L. destruct (N.eqb_spec c 0x0D) as [->|N].
      * rewrite splitlines_from_cr. constructor; [now apply Forall_rev|].
        apply IH; [pose proof (after_cr_length s); lia | constructor].
      * destruct (is_linebreak c) eqn:B.
        -- rewrite splitlines_from_break by assumption.
           constructor; [now apply Forall_rev|]. apply IH; [lia | constructor].
        -- rewrite splitlines_from_char by assumption.
           apply IH; [lia | now constructor].
Qed.

(** X12: no line of [splitlines] holds a line boundary: the tests never see
    a newline inside a line. *)
Theorem lines_hold_no_break (s : str) : Forall no_break (splitlines s).
Proof.
  apply (splitlines_from_no_break (length s)); [lia | constructor].
Qed.

Lemma universal_newlines_cr (s : str) :
  universal_newlines (0x0D :: s) = 0x0A :: universal_newlines (after_cr s).
Proof.
  destruct s as [|c s]; [reflexivity|].
  cbn [universal_newlines N.eqb Pos.eqb after_cr]. now destruct (c =? 0x0A).
Qed.

Lemma universal_newlines_char (c : char) (s : str) :
  c <> 0x0D -> universal_newlines (c :: s) = c :: universal_newlines s.
Proof.
  intros C. cbn [universal_newlines]. now destruct (N.eqb_spec c 0x0D).
Qed.

Lemma splitlines_from_universal (n : nat) (s cur : str) :
  (length s <= n)%nat ->
  splitlines_from cur (universal_newlines s) = splitlines_from cur s.
Proof.
  revert s cur; induction n as [|n IH]; intros s cur L.
  - destruct s; [reflexivity | simpl in L; lia].
  - destruct s as [|c s]; [reflexivity|]. simpl in L.
    destruct (N.eqb_spec c 0x0D) as [->|N].
    + rewrite universal_newlines_cr, splitlines_from_cr.
      rewrite splitlines_from_break by (reflexivity || discriminate).
      f_equal. apply IH. pose proof (after_cr_length s). lia.
    + rewrite universal_newlines_char by assumption.
      destruct (is_linebreak c) eqn:B.
      * rewrite !splitlines_from_break by assumption. f_equal. apply IH. lia.
      * rewrite !splitlines_from_char by assumption. apply IH. lia.
Qed.

(** X13: the newline translation of text mode changes nothing for the
    script: the translated text splits into the same lines as the text as it
    was decoded, so the body of the file loop gives the same result on both. *)
Theorem newline_translation_keeps_lines
        (upper_ext : char -> str) (results : list finding) (mtime : Q)
        (filepath s : str) :
  splitlines (universal_newlines s) = splitlines s
  /\ file_body upper_ext results mtime filepath (universal_newlines s)
     = file_body upper_ext results mtime filepath s.
Proof.
  assert (E : splitlines (universal_newlines s) = splitlines s).
  { apply (splitlines_from_universal (length s)). lia. }
  split; [exact E|]. unfold file_body. now rewrite E.
Qed.

End SplitFacts.

(** ** What the decoder yields *)

Module DecoderFacts.
Import PyStr Utf8 Terms Utf8Facts SplitFacts.

Ltac split_decode H :=
  repeat (cbn [andb orb negb] in H; cbv iota in H;
          match type of H with
          | context [?b <? ?k] => destruct (N.ltb_spec b k)
          | context [match ?l with [] => _ | _ :: _ => _ end] => destruct l
          | context [?a <=? ?b] => destruct (N.leb_spec a b)
          | context [?a =? ?b] => destruct (N.eqb_spec a b)
          end).

Lemma decoded_point_ranges (b : byte) (rest : list byte) (c : char) (len : nat) :
  decode_one b rest = Point c len ->
  (len = 1%nat /\ c <= 0x7F)
  \/ (len = 2%nat /\ 0x80 <= c <= 0x7FF)
  \/ (len = 3%nat /\ 0x800 <= c <= 0xFFFF /\ ~ (0xD800 <= c <= 0xDFFF))
  \/ (len = 4%nat /\ 0x10000 <= c <= 0x10FFFF).
Proof.
  unfold decode_one, is_cont. intros H. split_decode H;
    try discriminate H; injection H as <- <-;
    first [ left; split; [reflexivity | lia]
          | right; left; split; [reflexivity | lia]
          | right; right; left; split; [reflexivity | lia]
          | right; right; right; split; [reflexivity | lia] ].
Qed.

(** X14: a code point decoded from a sequence of [len] bytes lies in the
    range that needs [len] bytes, so no overlong form is accepted; it is no
    surrogate and not above U+10FFFF. *)
Theorem decoded_point_range (b : byte) (rest : list byte) (c : char) (len : nat) :
  decode_one b rest = Point c len ->
  (len = 1%nat /\ c <= 0x7F)
  \/ (len = 2%nat /\ 0x80 <= c <= 0x7FF)
  \/ (len = 3%nat /\ 0x800 <= c <= 0xFFFF /\ ~ (0xD800 <= c <= 0xDFFF))
  \/ (len = 4%nat /\ 0x10000 <= c <= 0x10FFFF).
Proof.
  exact (decoded_point_ranges b rest c len).
Qed.

Lemma decode_from_scalar (h : handler) (bs : list byte) (skip : nat) (s : str) :
  decode_from h skip bs = Text s -> Forall scalar s.
Proof.
  revert skip s; induction bs as [|b rest IH]; intros skip s; simpl.
  - intros H. injection H as <-. constructor.
  - destruct skip as [|k]; [|apply IH].
    destruct (decode_one b rest) as [c len|len] eqn:D.
    + intros H. apply emit_text in H. destruct H as (s' & H & ->).
      constructor; [|exact (IH _ _ H)].
      apply decoded_point_ranges in D. unfold scalar. lia.
    + destruct h; [discriminate|].
      intros H. apply emit_text in H. destruct H as (s' & H & ->).
      constructor; [|exact (IH _ _ H)]. unfold scalar, REPLACEMENT. lia.
Qed.

Lemma universal_newlines_scalar (n : nat) (s : str) :
  (length s <= n)%nat -> Forall scalar s ->
  Forall scalar (universal_newlines s) /\ ~ In 0x0D (universal_newlines s).
Proof.
  revert s; induction n as [|n IH]; intros s L F.
  - destruct s; [|simpl in L; lia]. split; [constructor | intros []].
  - destruct s as [|c s]; [split; [constructor | intros []]|].
    simpl in L. inversion F as [|? ? C F']; subst.
    destruct (N.eqb_spec c 0x0D) as [->|N].
    + rewrite universal_newlines_cr.
      destruct (IH (after_cr s)) as [A B].
      * pose proof (after_cr_length s). lia.
      * destruct s as [|d s]; [constructor|]. simpl.
        destruct (d =? 0x0A); [now inversion F' | exact F'].
      * split; [constructor; [unfold scalar; lia | exact A]|].
        intros [E | I]; [discriminate E | now apply B].
    + rewrite universal_newlines_char by assumption.
      destruct (IH s) as [A B]; [lia | exact F'|].
      split; [now constructor|]. intros [E | I]; [congruence | now apply B].
Qed.

(** X15: whatever the bytes of a file, the text the script gets holds only
    Unicode scalar values (no surrogate, nothing above U+10FFFF) and no
    carriage return. *)
Theorem text_is_scalar (h : handler) (bs : list Byte.byte) (content : str) :
  read h bs = Text content ->
  Forall scalar content /\ ~ In 0x0D content.
Proof.
  unfold read, decode. destruct (decode_from h 0 _) as [s|] eqn:D; [|discriminate].
  intros H. injection H as <-.
  apply (universal_newlines_scalar (length s)); [lia|].
  exact (decode_from_scalar _ _ _ _ D).
Qed.

Lemma decoded_point_range_witness :
  (3%nat = 1%nat /\ 0x20AC <= 0x7F)
  \/ (3%nat = 2%nat /\ 0x80 <= 0x20AC <= 0x7FF)
  \/ (3%nat = 3%nat /\ 0x800 <= 0x20AC <= 0xFFFF /\ ~ (0xD800 <= 0x20AC <= 0xDFFF))
  \/ (3%nat = 4%nat /\ 0x10000 <= 0x20AC <= 0x10FFFF).
Proof.
  apply (decoded_point_range 0xE2 [0x82; 0xAC] 0x20AC 3). reflexivity.
Defined.

Lemma text_is_scalar_witness :
  Forall scalar [REPLACEMENT; 0x61; 0x0A] /\ ~ In 0x0D [REPLACEMENT; 0x61; 0x0A].
Proof.
  apply (text_is_scalar Replace [Byte.xff; Byte.x61; Byte.x0d; Byte.x0a]).
  reflexivity.
Defined.

End DecoderFacts.

(** ** Runs that end and runs that do not *)

Module RunFacts.
Import PyStr Scanner Samples.

Section Host.
Variable upper_ext : char -> str.
Variable fromtimestamp : Q -> outcome Datetime.datetime.
Variable stdout_accepts : str -> bool.

Local Abbreviation scan := (scan upper_ext).
Local Abbreviation main := (main upper_ext fromtimestamp stdout_accepts).
Local Abbreviation report := (report fromtimestamp stdout_accepts).
Local Abbreviation report_loop := (report_loop fromtimestamp stdout_accepts).
Local Abbreviation report_line := (report_line fromtimestamp).
Local Abbreviation findings_of := (findings_of upper_ext).

(** The last loop returns exactly when the line of every entry can be built
    and printed. *)
Lemma report_loop_completes (results : list finding) :
  (exists out, report_loop results = (out, Returns tt))
  <-> Forall (fun x => exists line,
                report_line x = Returns line
                /\ stdout_accepts (line ++ [0x0A]) = true) results.
Proof.
  induction results as [|x results IH]; simpl.
  - split; [constructor | now exists []].
  - split.
    + intros (out & H).
      destruct (Scanner.report_line fromtimestamp x) as [line|] eqn:L;
        [|discriminate].
      unfold and_then, Scanner.print in H.
      destruct (stdout_accepts (line ++ [0x0A])) eqn:A; [|discriminate].
      destruct (Scanner.report_loop fromtimestamp stdout_accepts results)
        as [out' r] eqn:R.
      injection H as _ ->. constructor; [now exists line|].
      apply IH. now exists out'.
    + intros F. inversion F as [|? ? (line & L & A) F']; subst.
      apply IH in F'. destruct F' as (out' & R).
      rewrite L. unfold and_then, Scanner.print. rewrite A, R.
      now eexists.
Qed.

(** X16: when a file matched by the globs cannot be read ([getmtime] or
    [open] raises), the run ends with the exception and has printed
    nothing, whatever the other files hold: no part of the report comes
    out. *)
Theorem read_failure_prints_nothing (fs : filesystem) (filepath : str) :
  In filepath (visited fs) -> ~ readable fs filepath ->
  main fs = ([], Raises).
Proof.
  intros I N. unfold Scanner.main.
  destruct (Scanner.scan upper_ext fs) as [results|] eqn:S; [|reflexivity].
  apply (ScanFacts.scan_spec upper_ext fs) in S. destruct S as [R _].
  rewrite Forall_forall in R. destruct (N (R _ I)).
Qed.

(** X17: a run ends without an exception exactly when every matched file
    can be read and every [print] goes through: the one line when nothing
    is to report; otherwise the header, and for every entry of the sorted
    list the conversion of its time and the printing of its line. *)
Theorem run_completes_iff (fs : filesystem) :
  (exists out, main fs = (out, Returns tt))
  <-> Forall (readable fs) (visited fs)
      /\ let results := sort_desc (flat_map (findings_of fs) (visited fs)) in
         (results = [] ->
          stdout_accepts (lit "All review files are fully handled!" ++ [0x0A]) = true)
         /\ (results <> [] ->
             stdout_accepts
               ((lit "Found " ++ str_of_nat (length results)
                 ++ lit " file(s) needing attention:" ++ [0x0A]) ++ [0x0A]) = true
             /\ Forall (fun x => exists line,
                          report_line x = Returns line
                          /\ stdout_accepts (line ++ [0x0A]) = true) results).
Proof.
  unfold Scanner.main. split.
  - intros (out & H).
    destruct (Scanner.scan upper_ext fs) as [results|] eqn:S; [|discriminate].
    apply (ScanFacts.scan_spec upper_ext fs) in S. destruct S as [R ->].
    split; [exact R|]. cbv zeta.
    destruct (sort_desc _) as [|y s] eqn:E.
    + split; [intros _|intros C; now destruct C].
      unfold Scanner.report, Scanner.print in H.
      now destruct (stdout_accepts _).
    + split; [discriminate|intros _].
      unfold Scanner.report, and_then, Scanner.print in H.
      destruct (stdout_accepts _) eqn:A; [|discriminate].
      split; [reflexivity|].
      destruct (Scanner.report_loop fromtimestamp stdout_accepts (y :: s))
        as [out' r] eqn:RL.
      injection H as _ ->. apply report_loop_completes. now exists out'.
  - intros (R & H). cbv zeta in H.
    assert (S : scan fs = Returns (flat_map (findings_of fs) (visited fs)))
      by now apply (ScanFacts.scan_spec upper_ext fs).
    rewrite S.
    destruct (sort_desc _) as [|y s] eqn:E.
    + destruct H as [H _]. unfold Scanner.report, Scanner.print.
      rewrite (H eq_refl). now eexists.
    + destruct H as [_ H]. destruct H as [A F]; [discriminate|].
      apply report_loop_completes in F. destruct F as (out' & RL).
      unfold Scanner.report, and_then, Scanner.print. rewrite A, RL.
      now eexists.
Qed.

End Host.

Lemma read_failure_prints_nothing_witness :
  Scanner.main plain_upper fixed_clock any_text unreadable_fs = ([], Raises).
Proof.
  apply (read_failure_prints_nothing plain_upper fixed_clock any_text
           unreadable_fs draft_path).
  - vm_compute. auto.
  - intros [_ [bytes B]]. vm_compute in B. discriminate B.
Defined.

End RunFacts.
